(** * The quiz game: session registry and per-session state machine

    A shallow embedding of [pkg/quiz-server/session.go] and
    [pkg/quiz-server/session-manager.go], and the properties of the
    session lifecycle stated over it. The handlers of
    [pkg/quiz-server/quiz-server.go] and the client's [SubmitAnswer] and
    [displayQuestionAndAnswers] are embedded on top of it.

    Conventions of the embedding.
    - Go's [int] is a [Z] kept in the 64-bit two's complement range by
      [int_wrap]; [x++] and [x--] are [int_inc] and [int_dec].
    - Go's [error] is [option string]: [None] is [nil], [Some msg] is
      [errors.New(msg)].
    - [map[string]T] is [gmap string T].
    - A [*Session] is an address in the store of the [World]; the
      manager's maps and the task of a session share the object.
    - A run-time panic (index out of range, nil dereference, explicit
      [panic]) is the outcome [Panics] of a method of the session and
      the result [Panic] of a computation on the world.
    - The methods of the session and the commands of the manager are
      run one at a time: each is one function on the state, and a
      command sent on the manager's channel is the call of
      [handleCommand]. [go s.startQuiz()] records the task as started;
      the task is then run step by step between commands.
      [time.Sleep] and [time.After] carry no state and are left out.
    - The [for] loop of [startQuiz] is a function by recursion on fuel;
      [questionLoop_terminates] bounds the fuel it needs. *)

From Stdlib Require Import ZArith Lia.
From stdpp Require Import base option list strings pretty gmap.

Local Open Scope string_scope.
Local Open Scope list_scope.
Local Open Scope Z_scope.

(** ** Go integers *)

Definition int_min : Z := - 2 ^ 63.
Definition int_max : Z := 2 ^ 63 - 1.

Definition int_wrap (z : Z) : Z := (z + 2 ^ 63) mod 2 ^ 64 - 2 ^ 63.
Definition int_inc (z : Z) : Z := int_wrap (z + 1).
Definition int_dec (z : Z) : Z := int_wrap (z - 1).

(** [len(x)] of a map or a slice, as a Go [int]. *)
Definition len (n : nat) : Z := Z.of_nat n.

(** ** Errors and outcomes *)

Definition error : Type := option string.

Definition SessionFull : string := "Cannot add new player max players reached".
Definition PlayerNotFound : string := "player does not exist".
Definition AlreadyAnswered : string := "player has already voted".
Definition CapacityExceeded : string :=
  "max sessions reached, could not create a session to join".
Definition SessionNotFound : string := "session not found".
Definition UnknownCommand : string := "unknown SessionManagerCommand".

Inductive outcome (A : Type) : Type :=
  | Returns (a : A)
  | Panics (msg : string).
Arguments Returns {A} a.
Arguments Panics {A} msg.

(** ** Data model (session.go, and the question bank) *)

Record Question := {
  Question_text : string;
  PossibleAnswers : list string;
  CorrectAnswer : Z;
}.

Record Player := {
  Name : string;
  ID : string;
  Score : Z;
  hasVoted : bool;
}.

Record SessionConfig := {
  maxPlayersPerSession : Z;
  maxTimePerQuestion : Z;
  questions : list Question;
}.

(** The local type [QuestionPayload] of [publishQuestion]. *)
Record QuestionPayload := {
  Payload_Question : string;
  Payload_PossibleAnswers : list string;
}.

(** What is handed to [Publish] as [data]: the value whose JSON encoding
    is sent, or a plain string. *)
Inductive payload :=
  | JSONQuestion (q : QuestionPayload)
  | JSONScoreBoard (board : gmap string Z)
  | Text (s : string).

Record PublishCall := {
  call_name : string;
  call_data : payload;
  call_result : error;
}.

(** The [RealtimeChannel] interface. The collaborator is scripted, as the
    mock of the tests is: [script] gives the result of each coming
    [Publish] call ([nil] once the script is used up) and [calls] records
    the calls made so far. *)
Record RealtimeChannel := {
  script : list error;
  calls : list PublishCall;
}.

Definition Publish (name : string) (data : payload) (c : RealtimeChannel)
  : error * RealtimeChannel :=
  let r := hd None (script c) in
  (r, {| script := tl (script c);
         calls := calls c ++ [{| call_name := name; call_data := data;
                                 call_result := r |}] |}).

Record Session := {
  config : SessionConfig;
  SessionID : string;
  players : gmap string Player;
  currentQuestion : Z;
  publishChannel : RealtimeChannel;
  cancelled : bool;
}.

Definition NewSession (session : string) (sessionConfig : SessionConfig)
    (ablyChannel : RealtimeChannel) : Session :=
  {| config := sessionConfig;
     SessionID := session;
     players := ∅;
     currentQuestion := 0;
     publishChannel := ablyChannel;
     cancelled := false |}.

(** ** Session accessors *)

Definition set_players (ps : gmap string Player) (s : Session) : Session :=
  {| config := config s; SessionID := SessionID s; players := ps;
     currentQuestion := currentQuestion s;
     publishChannel := publishChannel s; cancelled := cancelled s |}.

Definition set_channel (c : RealtimeChannel) (s : Session) : Session :=
  {| config := config s; SessionID := SessionID s; players := players s;
     currentQuestion := currentQuestion s;
     publishChannel := c; cancelled := cancelled s |}.

Definition getCurrentQuestionCounter (s : Session) : Z := currentQuestion s.

Definition getQuestions (s : Session) : list Question := questions (config s).

(** [s.questions[s.currentQuestion]]: an index outside the slice panics,
    which is [None] here. *)
Definition getCurrentQuestion (s : Session) : option Question :=
  if (0 <=? currentQuestion s) && (currentQuestion s <? len (length (getQuestions s)))
  then getQuestions s !! Z.to_nat (currentQuestion s)
  else None.

Definition moveToNextQuestion (s : Session) : Session :=
  {| config := config s; SessionID := SessionID s; players := players s;
     currentQuestion := int_inc (currentQuestion s);
     publishChannel := publishChannel s; cancelled := cancelled s |}.

Definition getPlayers (s : Session) : gmap string Player := players s.

(** [s.players[player.ID] = player]: the key is the [ID] field of the
    value that is stored. *)
Definition setPlayer (player : Player) (s : Session) : Session :=
  set_players (<[ID player := player]> (players s)) s.

Definition cancel (s : Session) : Session :=
  {| config := config s; SessionID := SessionID s; players := players s;
     currentQuestion := currentQuestion s;
     publishChannel := publishChannel s; cancelled := true |}.

(** ** Session.AddPlayer

    The third component tells whether [go s.startQuiz()] was executed. *)
Definition Session_AddPlayer (player : Player) (s : Session)
  : error * Session * bool :=
  if len (size (players s)) <? maxPlayersPerSession (config s) then
    let s' := set_players
                (<[ID player := {| Name := Name player; ID := ID player;
                                   Score := 0; hasVoted := false |}]> (players s)) s in
    if len (size (players s')) =? maxPlayersPerSession (config s')
    then (None, s', true)
    else (None, s', false)
  else (Some SessionFull, s, false).

(** ** Session.SubmitAnswer *)

Definition with_Score (z : Z) (p : Player) : Player :=
  {| Name := Name p; ID := ID p; Score := z; hasVoted := hasVoted p |}.

Definition with_hasVoted (b : bool) (p : Player) : Player :=
  {| Name := Name p; ID := ID p; Score := Score p; hasVoted := b |}.

Definition Session_SubmitAnswer (player : Player) (answer : Z) (s : Session)
  : outcome (error * Session) :=
  match getPlayers s !! ID player with
  | None => Returns (Some PlayerNotFound, s)
  | Some player =>
      if hasVoted player then Returns (Some AlreadyAnswered, s)
      else
        match getCurrentQuestion s with
        | None => Panics "index out of range"
        | Some q =>
            let player :=
              if answer =? CorrectAnswer q
              then with_Score (int_inc (Score player)) player
              else player in
            let player := with_hasVoted true player in
            Returns (None, setPlayer player s)
        end
  end.

(** Every entry of the player map sits under its own id. [AddPlayer]
    only makes such entries. *)
Definition players_keyed (ps : gmap string Player) : Prop :=
  ∀ k p, ps !! k = Some p → ID p = k.

(** ** publishQuestion and publishScoreBoard *)

(** The first loop of [publishQuestion]: every player of the map, as it
    is when the loop starts, is written back with a cleared flag. The
    order in which Go visits a map is not fixed; the result does not
    depend on it when the map is [players_keyed]. *)
Definition resetVotes (s : Session) : Session :=
  foldl (λ acc player, setPlayer (with_hasVoted false player) acc) s
        (map_to_list (getPlayers s)).*2.

(** [json.Marshal] of a [QuestionPayload] or of a [map[string]int] has no
    error case, so the two [err != nil] branches after it are dead. *)
Definition publishQuestion (s : Session) : outcome (error * Session) :=
  let s := resetVotes s in
  match getCurrentQuestion s with
  | None => Panics "index out of range"
  | Some currentQuestion =>
      let data := {| Payload_Question := Question_text currentQuestion;
                     Payload_PossibleAnswers := PossibleAnswers currentQuestion |} in
      let '(err, c) := Publish "new_question" (JSONQuestion data) (publishChannel s) in
      Returns (err, set_channel c s)
  end.

Definition scoreBoard (ps : gmap string Player) : gmap string Z :=
  foldl (λ board player, <[Name player := Score player]> board) ∅
        (map_to_list ps).*2.

Definition publishScoreBoard (s : Session) : Session :=
  let '(_, c) := Publish "quiz-update" (JSONScoreBoard (scoreBoard (getPlayers s)))
                         (publishChannel s) in
  set_channel c s.

(** ** The session manager (session-manager.go) *)

Inductive SessionManagerCommandType :=
  | SubmitAnswer
  | JoinSession
  | MoveSessionToInProgress
  | EndSession
  | OtherCommand (n : Z).

Record SessionManagerCommand := {
  CommandType : SessionManagerCommandType;
  player : Player;
  answer : Z;
  SessionId : string;
}.

Record SessionManagerResponse := {
  Error : error;
  Response_SessionId : string;
}.

(** The maps of the manager hold [*Session]: a session is an address in
    the store of the [World], shared with the task that runs its quiz. *)
Definition loc : Type := nat.

Record SessionManager := {
  waitingRooms : gmap string loc;
  inProgress : gmap string loc;
  mgr_maxPlayersPerSession : Z;
  activeCount : Z;
  maxSessions : Z;
  ablyConnection : string → RealtimeChannel;
  mgr_questions : list Question;
}.

Record World := {
  manager : SessionManager;
  store : list Session;
  started : list loc;
  idsGenerated : nat;
}.

Definition NewSessionManager (maxSessions maxPlayersPerSession : Z)
    (ablyConnection : string → RealtimeChannel) (loadedQuestions : list Question)
  : SessionManager :=
  {| waitingRooms := ∅;
     inProgress := ∅;
     mgr_maxPlayersPerSession := maxPlayersPerSession;
     activeCount := 0;
     maxSessions := maxSessions;
     ablyConnection := ablyConnection;
     mgr_questions := loadedQuestions |}.

Definition NewWorld (m : SessionManager) : World :=
  {| manager := m; store := []; started := []; idsGenerated := 0 |}.

Definition set_manager (m : SessionManager) (w : World) : World :=
  {| manager := m; store := store w; started := started w;
     idsGenerated := idsGenerated w |}.

Definition set_store (h : list Session) (w : World) : World :=
  {| manager := manager w; store := h; started := started w;
     idsGenerated := idsGenerated w |}.

Definition set_waitingRooms (r : gmap string loc) (m : SessionManager) : SessionManager :=
  {| waitingRooms := r; inProgress := inProgress m;
     mgr_maxPlayersPerSession := mgr_maxPlayersPerSession m;
     activeCount := activeCount m; maxSessions := maxSessions m;
     ablyConnection := ablyConnection m; mgr_questions := mgr_questions m |}.

Definition set_inProgress (r : gmap string loc) (m : SessionManager) : SessionManager :=
  {| waitingRooms := waitingRooms m; inProgress := r;
     mgr_maxPlayersPerSession := mgr_maxPlayersPerSession m;
     activeCount := activeCount m; maxSessions := maxSessions m;
     ablyConnection := ablyConnection m; mgr_questions := mgr_questions m |}.

Definition set_activeCount (n : Z) (m : SessionManager) : SessionManager :=
  {| waitingRooms := waitingRooms m; inProgress := inProgress m;
     mgr_maxPlayersPerSession := mgr_maxPlayersPerSession m;
     activeCount := n; maxSessions := maxSessions m;
     ablyConnection := ablyConnection m; mgr_questions := mgr_questions m |}.

(** ** Computations on the world *)

Inductive result (A : Type) : Type :=
  | Done (a : A) (w : World)
  | Panic (msg : string)
  | OutOfFuel.
Arguments Done {A} a w.
Arguments Panic {A} msg.
Arguments OutOfFuel {A}.

Definition Go (A : Type) : Type := World → result A.

Definition ret {A} (a : A) : Go A := λ w, Done a w.

Definition bind {A B} (c : Go A) (k : A → Go B) : Go B :=
  λ w, match c w with
       | Done a w' => k a w'
       | Panic msg => Panic msg
       | OutOfFuel => OutOfFuel
       end.

Notation "x <~ c ;; k" := (bind c (λ x, k))
  (at level 100, c at next level, right associativity).
Notation "c ;;; k" := (bind c (λ _, k))
  (at level 100, right associativity).

Definition panic {A} (msg : string) : Go A := λ _, Panic msg.

(** A method call [s.f()] on the session at address [l]. *)
Definition onSession {A} (l : loc) (f : Session → outcome (A * Session)) : Go A :=
  λ w, match store w !! l with
       | None => Panic "nil pointer dereference"
       | Some s =>
           match f s with
           | Returns (a, s') => Done a (set_store (<[l := s']> (store w)) w)
           | Panics msg => Panic msg
           end
       end.

Definition getSession (l : loc) : Go Session :=
  onSession l (λ s, Returns (s, s)).

Definition updSession (l : loc) (f : Session → Session) : Go unit :=
  onSession l (λ s, Returns (tt, f s)).

(** [go s.startQuiz()]: the task is recorded as started. *)
Definition go_startQuiz (l : loc) : Go unit :=
  λ w, Done tt {| manager := manager w; store := store w;
                  started := started w ++ [l];
                  idsGenerated := idsGenerated w |}.

Definition AddPlayer (l : loc) (player : Player) : Go error :=
  r <~ onSession l (λ s, let '(err, s', start) := Session_AddPlayer player s in
                          Returns ((err, start), s')) ;;
  if r.2 then (go_startQuiz l ;;; ret r.1) else ret r.1.

Definition getManager : Go SessionManager := λ w, Done (manager w) w.

Definition updManager (f : SessionManager → SessionManager) : Go unit :=
  λ w, Done tt (set_manager (f (manager w)) w).

Section Registry.

(** [generateUniqueID] is called by [createSession]; its definition is
    not among the sources. It is a parameter here: the sequence of the
    identifiers it returns, call after call. *)
Variable generateUniqueID : nat → string.

(** The order in which [range] visits [waitingRooms] is not fixed by
    Go. [choose] stands for that choice: the room visited first is the
    one at position [choose m] (modulo the number of rooms) of the
    map's listing. *)
Variable choose : gmap string loc → nat.

Definition rangeFirst (m : gmap string loc) : option (string * loc) :=
  map_to_list m !! (choose m `mod` length (map_to_list m))%nat.

Definition nextUniqueID : Go string :=
  λ w, Done (generateUniqueID (idsGenerated w))
            {| manager := manager w; store := store w; started := started w;
               idsGenerated := S (idsGenerated w) |}.

(** [NewSession] followed by taking the address of the new object. *)
Definition allocSession (s : Session) : Go loc :=
  λ w, Done (length (store w)) (set_store (store w ++ [s]) w).

Definition createSession : Go (string * error) :=
  s <~ getManager ;;
  if activeCount s >=? maxSessions s then
    ret ("", Some CapacityExceeded)
  else
    sessionID <~ nextUniqueID ;;
    let sessionConfig :=
      {| maxPlayersPerSession := mgr_maxPlayersPerSession s;
         maxTimePerQuestion := 3 * 1000000000;
         questions := mgr_questions s |} in
    let sessionAblyChannel := ablyConnection s sessionID in
    session <~ allocSession (NewSession sessionID sessionConfig sessionAblyChannel) ;;
    updManager (λ s, set_waitingRooms (<[sessionID := session]> (waitingRooms s)) s) ;;;
    updManager (λ s, set_activeCount (int_inc (activeCount s)) s) ;;;
    ret (sessionID, None).

Definition handleCommand (cmd : SessionManagerCommand) : Go SessionManagerResponse :=
  match CommandType cmd with
  | EndSession =>
      (* [_, ok := s.inProgress[cmd.SessionId]]: when the id is absent
         the code prints a message and goes on. *)
      updManager (λ s, set_activeCount (int_dec (activeCount s)) s) ;;;
      updManager (λ s, set_inProgress (delete (SessionId cmd) (inProgress s)) s) ;;;
      ret {| Error := None; Response_SessionId := "" |}
  | MoveSessionToInProgress =>
      s <~ getManager ;;
      match waitingRooms s !! SessionId cmd with
      | None => ret {| Error := Some SessionNotFound; Response_SessionId := "" |}
      | Some session =>
          updManager (λ s, set_inProgress (<[SessionId cmd := session]> (inProgress s)) s) ;;;
          updManager (λ s, set_waitingRooms (delete (SessionId cmd) (waitingRooms s)) s) ;;;
          ret {| Error := None; Response_SessionId := "" |}
      end
  | SubmitAnswer =>
      s <~ getManager ;;
      match inProgress s !! SessionId cmd with
      | None => ret {| Error := Some SessionNotFound; Response_SessionId := "" |}
      | Some session =>
          err <~ onSession session (Session_SubmitAnswer (player cmd) (answer cmd)) ;;
          ret {| Error := err; Response_SessionId := "" |}
      end
  | JoinSession =>
      s <~ getManager ;;
      if len (size (waitingRooms s)) >? 0 then
        match rangeFirst (waitingRooms s) with
        | None => panic "nil pointer dereference"
        | Some (sessionToJoinID, sessionToJoin) =>
            err <~ AddPlayer sessionToJoin (player cmd) ;;
            ret {| Error := err; Response_SessionId := sessionToJoinID |}
        end
      else
        r <~ createSession ;;
        match r.2 with
        | Some e => ret {| Error := Some e; Response_SessionId := "" |}
        | None =>
            s <~ getManager ;;
            match waitingRooms s !! r.1 with
            | None => panic "nil pointer dereference"
            | Some session =>
                err <~ AddPlayer session (player cmd) ;;
                ret {| Error := err; Response_SessionId := r.1 |}
            end
        end
  | OtherCommand _ =>
      ret {| Error := Some UnknownCommand; Response_SessionId := "" |}
  end.

(** ** The progression task (startQuiz, endSession)

    A command sent on [quizManagerChan] and the wait for its response
    are the call of [handleCommand] on the world as it is then. *)

Definition zeroPlayer : Player :=
  {| Name := ""; ID := ""; Score := 0; hasVoted := false |}.

Definition sessionCommand (t : SessionManagerCommandType) (id : string)
  : SessionManagerCommand :=
  {| CommandType := t; player := zeroPlayer; answer := 0; SessionId := id |}.

Definition publish (l : loc) (name : string) (data : payload) : Go error :=
  onSession l (λ s, let '(err, c) := Publish name data (publishChannel s) in
                    Returns (err, set_channel c s)).

Definition endSession (l : loc) : Go unit :=
  publish l "quiz-end" (Text "thank you for playing") ;;;
  s <~ getSession l ;;
  response <~ handleCommand (sessionCommand EndSession (SessionID s)) ;;
  match Error response with
  | Some _ => panic "error ending session"
  | None => updSession l cancel
  end.

(** The [for] loop of [startQuiz]. The result is [true] when the loop
    is left by [break] and [false] when [startQuiz] returns from inside
    it. *)
Fixpoint questionLoop (fuel : nat) (l : loc) : Go bool :=
  match fuel with
  | O => λ _, OutOfFuel
  | S fuel =>
      s <~ getSession l ;;
      if getCurrentQuestionCounter s >=? len (length (getQuestions s)) then ret true
      else
        err <~ onSession l publishQuestion ;;
        match err with
        | Some _ => endSession l ;;; ret false
        | None =>
            updSession l moveToNextQuestion ;;;
            questionLoop fuel l
        end
  end.

(** The steps of [startQuiz] after the session was moved to in
    progress. The [if err != nil] after the first [Publish] calls
    [endSession] and does not return. *)
Definition runQuiz (fuel : nat) (l : loc) : Go unit :=
  err <~ publish l "quiz-update" (Text "Quiz starting in 3 seconds") ;;
  (match err with
   | Some _ => endSession l
   | None => ret tt
   end) ;;;
  finished <~ questionLoop fuel l ;;
  if finished : bool then
    updSession l publishScoreBoard ;;;
    endSession l
  else ret tt.

Definition startQuiz (fuel : nat) (l : loc) : Go unit :=
  s <~ getSession l ;;
  response <~ handleCommand (sessionCommand MoveSessionToInProgress (SessionID s)) ;;
  match Error response with
  | Some _ => endSession l
  | None => runQuiz fuel l
  end.

End Registry.

(** ** The HTTP handlers (quiz-server.go)

    The body of a request is given as [json.Decoder] decodes it, [None]
    when [Decode] returns an error. A handler answers either through
    [http.Error], with a message and a status code, or with a JSON body
    and the status 200 that [Write] sets. [json.Marshal] of a struct of
    one string has no error case, and a failed [Write] is only printed. *)

Record ConnectRequest := {
  PlayerName : string;
  PlayerId : string;
}.

Record AnswerRequest := {
  Request_SessionId : string;
  Request_PlayerId : string;
  Request_Answer : Z;
}.

Inductive ResponseJSON :=
  | SessionIdJSON (sessionId : string)
  | MessageJSON (message : string).

Inductive HttpResponse :=
  | http_Error (error : string) (code : Z)
  | JSONBody (body : ResponseJSON).

Definition StatusOK : Z := 200.
Definition StatusBadRequest : Z := 400.
Definition StatusInternalServerError : Z := 500.

Definition StatusCode (resp : HttpResponse) : Z :=
  match resp with
  | http_Error _ code => code
  | JSONBody _ => StatusOK
  end.

Section Handlers.

Variable generateUniqueID : nat → string.
Variable choose : gmap string loc → nat.

Definition ConnectToSessionHandler (r : option ConnectRequest) : Go HttpResponse :=
  match r with
  | None => ret (http_Error "Failed to parse request body." StatusBadRequest)
  | Some request =>
      if (String.eqb (PlayerName request) "" || String.eqb (PlayerId request) "")%bool
      then ret (http_Error "Player name and ID are required." StatusBadRequest)
      else
        response <~ handleCommand generateUniqueID choose
                      {| CommandType := JoinSession;
                         player := {| Name := PlayerName request;
                                      ID := PlayerId request;
                                      Score := 0; hasVoted := false |};
                         answer := 0; SessionId := "" |} ;;
        match Error response with
        | Some e => ret (http_Error e StatusInternalServerError)
        | None => ret (JSONBody (SessionIdJSON (Response_SessionId response)))
        end
  end.

Definition SubmitAnswerHandler (r : option AnswerRequest) : Go HttpResponse :=
  match r with
  | None => ret (http_Error "Failed to parse request body." StatusBadRequest)
  | Some request =>
      if (String.eqb (Request_PlayerId request) ""
          || String.eqb (Request_SessionId request) "")%bool
      then ret (http_Error "Session ID and player ID are required." StatusBadRequest)
      else
        response <~ handleCommand generateUniqueID choose
                      {| CommandType := SubmitAnswer;
                         player := {| Name := ""; ID := Request_PlayerId request;
                                      Score := 0; hasVoted := false |};
                         answer := Request_Answer request;
                         SessionId := Request_SessionId request |} ;;
        match Error response with
        | Some e => ret (http_Error e StatusInternalServerError)
        | None => ret (JSONBody (MessageJSON "Answer submitted successfully."))
        end
  end.

(** ** The client (client main package)

    [strconv.Atoi] is a parameter: the number and the error that it
    returns for a string. [http.Post] either fails, with the error
    [sendError] and without reaching the server, or delivers the
    request to [SubmitAnswerHandler], whose decoder reads back the
    fields that [json.Marshal] wrote under the same names. *)
Variable Atoi : string → Z * error.

Definition newline : string := String (Ascii.ascii_of_nat 10) EmptyString.

(** What [io.ReadAll] reads from the body of a response: [http.Error]
    writes its message and a line end. *)
Definition bodyOf (error : string) : string := error +:+ newline.

Definition Client_SubmitAnswer (sendError : error) (sessionId playerId answer : string)
  : Go error :=
  let '(answerInt, err) := Atoi answer in
  match err with
  | Some e => ret (Some ("error converting answer to integer: " +:+ e))
  | None =>
      if answerInt <? 1 then ret (Some "answer must be value of 1 or higher")
      else
        let answerInt := int_dec answerInt in
        match sendError with
        | Some e => ret (Some ("error sending request: " +:+ e))
        | None =>
            resp <~ SubmitAnswerHandler
                      (Some {| Request_SessionId := sessionId;
                               Request_PlayerId := playerId;
                               Request_Answer := answerInt |}) ;;
            match resp with
            | http_Error e code =>
                if negb (code =? StatusOK)
                then ret (Some ("error submitting answer: " +:+ bodyOf e))
                else ret None
            | JSONBody _ => ret None
            end
        end
  end.

End Handlers.

(** [QuestionMessage], and the message that [json.Unmarshal] reads from
    the JSON of a [QuestionPayload]: both name their fields [question]
    and [possibleAnswers]. *)
Record QuestionMessage := {
  Message_Question : string;
  Answers : list string;
}.

Definition questionMessage (data : QuestionPayload) : QuestionMessage :=
  {| Message_Question := Payload_Question data;
     Answers := Payload_PossibleAnswers data |}.

(** The lines that [displayQuestionAndAnswers] prints. *)
Definition displayQuestionAndAnswers (qm : QuestionMessage) : list string :=
  ["New question:  " +:+ Message_Question qm;
   "Select an answer from the following options:"]
  ++ imap (λ (i : nat) (answer : string), pretty (i + 1)%nat +:+ ": " +:+ answer)
          (Answers qm).


(** * Vocabulary of the properties *)

(** The player that [SubmitAnswer] stores for [p] when the current
    question is [q] and the score does not overflow. *)
Definition answered (q : Question) (a : Z) (p : Player) : Player :=
  {| Name := Name p; ID := ID p;
     Score := if a =? CorrectAnswer q then Score p + 1 else Score p;
     hasVoted := true |}.

(** The entry that [AddPlayer] makes for a player. *)
Definition joined (player : Player) : Player :=
  {| Name := Name player; ID := ID player; Score := 0; hasVoted := false |}.

(** What [publishQuestion] copies out of a question. *)
Definition withheld (q : Question) : QuestionPayload :=
  {| Payload_Question := Question_text q;
     Payload_PossibleAnswers := PossibleAnswers q |}.

Definition submitCommand (id : string) (p : Player) (a : Z) : SessionManagerCommand :=
  {| CommandType := SubmitAnswer; player := p; answer := a; SessionId := id |}.

Definition joinCommand (p : Player) : SessionManagerCommand :=
  {| CommandType := JoinSession; player := p; answer := 0; SessionId := "" |}.

Definition failed (e : string) : SessionManagerResponse :=
  {| Error := Some e; Response_SessionId := "" |}.

Definition succeeded (id : string) : SessionManagerResponse :=
  {| Error := None; Response_SessionId := id |}.

(** [RunSessionManager] on a sequence of commands: one after the other,
    each answered before the next is taken. *)
Fixpoint runCommands (g : nat → string) (ch : gmap string loc → nat)
    (cmds : list SessionManagerCommand) : Go (list SessionManagerResponse) :=
  match cmds with
  | [] => ret []
  | cmd :: cmds =>
      r <~ handleCommand g ch cmd ;;
      rs <~ runCommands g ch cmds ;;
      ret (r :: rs)
  end.

(** The invariant of the registry: the two partitions share no session
    id, and [activeCount] counts the sessions of both. *)
Definition registry_invariant (m : SessionManager) : Prop :=
  waitingRooms m ##ₘ inProgress m
  ∧ activeCount m = len (size (waitingRooms m)) + len (size (inProgress m)).

(** The player map after the players [ps] were added, in that order. *)
Definition roster (ps : list Player) : gmap string Player :=
  foldl (λ m p, <[ID p := joined p]> m) ∅ ps.

(** The join calls [joins], made on the world [w0], fill one session:
    every call is answered with the id of the same session; [startQuiz]
    is started once, for that session; the session holds the ids of
    [joins], as many as the configured maximum; the move to in progress
    that [startQuiz] asks for succeeds, and a second one is refused. *)
Definition one_session_starts (g : nat → string) (ch : gmap string loc → nat)
    (w0 : World) (joins : list Player) : Prop :=
  ∃ rs w l s w',
    runCommands g ch (joinCommand <$> joins) w0 = Done rs w
    ∧ Forall (λ r, r = succeeded (SessionID s)) rs
    ∧ started w = [l]
    ∧ store w !! l = Some s
    ∧ dom (players s) = list_to_set (ID <$> joins)
    ∧ len (size (players s)) = mgr_maxPlayersPerSession (manager w0)
    ∧ handleCommand g ch (sessionCommand MoveSessionToInProgress (SessionID s)) w
      = Done (succeeded "") w'
    ∧ waitingRooms (manager w') = ∅
    ∧ inProgress (manager w') = {[SessionID s := l]}
    ∧ handleCommand g ch (sessionCommand MoveSessionToInProgress (SessionID s)) w'
      = Done (failed SessionNotFound) w'.

(** The [Publish] calls made on the channel of the session at [l]: event
    name and result, oldest first. *)
Definition callsOf (l : loc) (w : World) : list (string * error) :=
  match store w !! l with
  | Some s => (λ c, (call_name c, call_result c)) <$> calls (publishChannel s)
  | None => []
  end.

(** No [new_question] is published after a [Publish] that failed. *)
Definition no_question_after_failure (cs : list (string * error)) : Prop :=
  ∀ (i j : nat) (name name' e : string) (r : error),
    cs !! i = Some (name, Some e) → (i < j)%nat → cs !! j = Some (name', r) →
    name' ≠ "new_question".

(** The invariant together with the bounds that keep the counter from
    wrapping around. *)
Definition registry_ok (m : SessionManager) : Prop :=
  registry_invariant m ∧ activeCount m ≤ int_max ∧ maxSessions m ≤ int_max.

(** The world that a successful [createSession] leaves, [g] being the
    generator of identifiers. *)
Definition withNewSession (g : nat → string) (w : World) : World :=
  let s := manager w in
  let sessionID := g (idsGenerated w) in
  {| manager :=
       set_activeCount (int_inc (activeCount s))
         (set_waitingRooms (<[sessionID := length (store w)]> (waitingRooms s)) s);
     store := store w
              ++ [NewSession sessionID
                    {| maxPlayersPerSession := mgr_maxPlayersPerSession s;
                       maxTimePerQuestion := 3 * 1000000000;
                       questions := mgr_questions s |}
                    (ablyConnection s sessionID)];
     started := started w;
     idsGenerated := S (idsGenerated w) |}.

(** The session after [endSession] published its event and cancelled. *)
Definition ended (s : Session) : Session :=
  cancel (set_channel
            (Publish "quiz-end" (Text "thank you for playing") (publishChannel s)).2 s).

(** The manager after an [EndSession] command for [id]. *)
Definition removed (id : string) (m : SessionManager) : SessionManager :=
  set_inProgress (delete id (inProgress m)) (set_activeCount (int_dec (activeCount m)) m).

(** The first session of a server whose sessions take [n] players: its
    configuration, the manager that holds it in the waiting partition,
    and the world in which the players [ps] have joined it. *)
Definition firstConfig (qs : list Question) (n : nat) : SessionConfig :=
  {| maxPlayersPerSession := len n;
     maxTimePerQuestion := 3 * 1000000000;
     questions := qs |}.

Definition firstManager (g : nat → string) (maxS : Z)
    (conn : string → RealtimeChannel) (qs : list Question) (n : nat) : SessionManager :=
  {| waitingRooms := {[g 0%nat := 0%nat]};
     inProgress := ∅;
     mgr_maxPlayersPerSession := len n;
     activeCount := 1;
     maxSessions := maxS;
     ablyConnection := conn;
     mgr_questions := qs |}.

Definition firstCreated (g : nat → string) (maxS : Z)
    (conn : string → RealtimeChannel) (qs : list Question) (n : nat) : World :=
  {| manager := firstManager g maxS conn qs n;
     store := [NewSession (g 0%nat) (firstConfig qs n) (conn (g 0%nat))];
     started := [];
     idsGenerated := 1 |}.

Definition firstFilling (g : nat → string) (maxS : Z)
    (conn : string → RealtimeChannel) (qs : list Question) (n : nat)
    (ps : list Player) : World :=
  {| manager := firstManager g maxS conn qs n;
     store := [set_players (roster ps)
                 (NewSession (g 0%nat) (firstConfig qs n) (conn (g 0%nat)))];
     started := if decide (length ps = n) then [0%nat] else [];
     idsGenerated := 1 |}.

(** ** Sample data *)

Definition exampleIDs (n : nat) : string := "s" +:+ pretty n.

Definition firstListed (m : gmap string loc) : nat := 0%nat.

Definition exampleQuestion : Question :=
  {| Question_text := "2+2?"; PossibleAnswers := ["3"; "4"]; CorrectAnswer := 1 |}.

Definition exampleConnection (results : list error) : string → RealtimeChannel :=
  λ _, {| script := results; calls := [] |}.

Definition alice : Player :=
  {| Name := "Alice"; ID := "a1"; Score := 0; hasVoted := false |}.

Definition bob : Player :=
  {| Name := "Bob"; ID := "b1"; Score := 0; hasVoted := false |}.

(** A second player who uses the id of [alice]. *)
Definition alicia : Player :=
  {| Name := "Alicia"; ID := "a1"; Score := 0; hasVoted := false |}.

(** A server for one session of one player, with a one-question bank. *)
Definition soloWorld (results : list error) : World :=
  NewWorld (NewSessionManager 1 1 (exampleConnection results) [exampleQuestion]).

Definition exampleConfig (maxPlayers : Z) : SessionConfig :=
  {| maxPlayersPerSession := maxPlayers;
     maxTimePerQuestion := 3 * 1000000000;
     questions := [exampleQuestion] |}.

(** A session of up to two players that [alice] has joined. *)
Definition aliceSession : Session :=
  set_players {[ "a1" := alice ]}
    (NewSession "s0" (exampleConfig 2) (exampleConnection [] "s0")).

(** The same session after [alice] answered the current question. *)
Definition aliceVotedSession : Session :=
  set_players {[ "a1" := with_hasVoted true alice ]} aliceSession.

(** ** Vocabulary of the further properties *)

(** [AddPlayer] for the players [ps], one call after the other: the
    results of the calls, each with its start flag, and the session at
    the end. *)
Fixpoint addPlayers (ps : list Player) (s : Session) : list (error * bool) * Session :=
  match ps with
  | [] => ([], s)
  | p :: ps =>
      let '(err, s', start) := Session_AddPlayer p s in
      let '(rs, s'') := addPlayers ps s' in
      ((err, start) :: rs, s'')
  end.

(** The number of calls that executed [go s.startQuiz()]. *)
Definition starts (rs : list (error * bool)) : nat :=
  length (filter (λ r, r.2 = true) rs).

(** No score of the session is at the end of the range of [int]. *)
Definition scores_in_range (ps : gmap string Player) : Prop :=
  ∀ k p, ps !! k = Some p → int_min ≤ Score p < int_max.

(** No two players of the session have the same display name. *)
Definition names_distinct (ps : gmap string Player) : Prop :=
  ∀ k1 k2 p1 p2, ps !! k1 = Some p1 → ps !! k2 = Some p2 →
                 Name p1 = Name p2 → k1 = k2.

(** The result that a scripted channel gives to the [i]-th of the coming
    [Publish] calls. *)
Definition answerOf (sc : list error) (i : nat) : error := hd None (drop i sc).

(** The [new_question] call for a question, with its result. *)
Definition questionCall (r : error) (q : Question) : PublishCall :=
  {| call_name := "new_question"; call_data := JSONQuestion (withheld q);
     call_result := r |}.

(** The session after the [Publish] call of a question. *)
Definition published (q : Question) (s : Session) : Session :=
  set_channel (Publish "new_question" (JSONQuestion (withheld q)) (publishChannel s)).2
              (resetVotes s).

(** The session after one round of the loop of [startQuiz]: the question
    under the cursor is published and the cursor moves on. *)
Definition asked (q : Question) (s : Session) : Session :=
  moveToNextQuestion (published q s).

(** The notice that [startQuiz] publishes first, and the event of
    [endSession]. *)
Definition noticeCall (r : error) : PublishCall :=
  {| call_name := "quiz-update"; call_data := Text "Quiz starting in 3 seconds";
     call_result := r |}.

Definition endCall (r : error) : PublishCall :=
  {| call_name := "quiz-end"; call_data := Text "thank you for playing";
     call_result := r |}.

Definition boardCall (ps : gmap string Player) (r : error) : PublishCall :=
  {| call_name := "quiz-update"; call_data := JSONScoreBoard (scoreBoard ps);
     call_result := r |}.

(** The manager after a [MoveSessionToInProgress] command that found the
    session [l] under [id] in the waiting partition. *)
Definition moved (id : string) (l : loc) (m : SessionManager) : SessionManager :=
  set_waitingRooms (delete id (waitingRooms m))
    (set_inProgress (<[id := l]> (inProgress m)) m).

(** The session after a [Publish] call. *)
Definition sent (name : string) (data : payload) (s : Session) : Session :=
  set_channel (Publish name data (publishChannel s)).2 s.


(** ** Further sample data *)

Definition secondQuestion : Question :=
  {| Question_text := "3*3?"; PossibleAnswers := ["6"; "9"; "12"]; CorrectAnswer := 1 |}.

(** A server whose sessions take one player and ask two questions,
    after [alice] joined: her session is full and still waiting. Its
    channel answers the publish calls with [results]. *)
Definition aliceAlone (results : list error) : Session :=
  set_players (roster [alice])
    (NewSession (exampleIDs 0) (firstConfig [exampleQuestion; secondQuestion] 1)
       (exampleConnection results (exampleIDs 0))).

Definition aliceAloneWorld (results : list error) : World :=
  firstFilling exampleIDs 1 (exampleConnection results)
    [exampleQuestion; secondQuestion] 1 [alice].

(** ** Vocabulary of the registry properties *)

(** Every session that the registry holds is allocated. *)
Definition sessions_allocated (w : World) : Prop :=
  ∀ id l,
    waitingRooms (manager w) !! id = Some l ∨ inProgress (manager w) !! id = Some l →
    is_Some (store w !! l).

(** The session takes no further player. *)
Definition full (s : Session) : Prop :=
  maxPlayersPerSession (config s) ≤ len (size (players s)).

(** The world after [AddPlayer] for the session [s] at [l]. *)
Definition seated (l : loc) (p : Player) (s : Session) (w : World) : World :=
  {| manager := manager w;
     store := <[l := (Session_AddPlayer p s).1.2]> (store w);
     started := if (Session_AddPlayer p s).2 then started w ++ [l] else started w;
     idsGenerated := idsGenerated w |}.

(** The session that [createSession] makes in the world [w]. *)
Definition freshSession (g : nat → string) (w : World) : Session :=
  NewSession (g (idsGenerated w))
    {| maxPlayersPerSession := mgr_maxPlayersPerSession (manager w);
       maxTimePerQuestion := 3 * 1000000000;
       questions := mgr_questions (manager w) |}
    (ablyConnection (manager w) (g (idsGenerated w))).

(** Every id of the registry was made by the generator. *)
Definition ids_known (g : nat → string) (w : World) : Prop :=
  ∀ id,
    is_Some (waitingRooms (manager w) !! id) ∨ is_Some (inProgress (manager w) !! id) →
    ∃ i, (i < idsGenerated w)%nat ∧ id = g i.

(** What [RunSessionManager] keeps from command to command: the
    invariant of the registry, no more sessions than the server may
    have, and ids that the generator made. *)
Definition registry_sound (g : nat → string) (w : World) : Prop :=
  registry_ok (manager w)
  ∧ activeCount (manager w) ≤ maxSessions (manager w)
  ∧ ids_known g w.

(** A command that the registry can take in the world [w]: an
    [EndSession] names a session that is in progress, and a
    [SubmitAnswer] that names a session in progress finds a question
    under the cursor of that session. *)
Definition admissible (cmd : SessionManagerCommand) (w : World) : Prop :=
  (CommandType cmd = EndSession →
   is_Some (inProgress (manager w) !! SessionId cmd))
  ∧ (CommandType cmd = SubmitAnswer →
     ∀ l s, inProgress (manager w) !! SessionId cmd = Some l →
            store w !! l = Some s → is_Some (getCurrentQuestion s)).

(** Every command of the sequence is admissible in the world in which
    it is handled. *)
Fixpoint all_admissible (g : nat → string) (ch : gmap string loc → nat)
    (cmds : list SessionManagerCommand) (w : World) : Prop :=
  match cmds with
  | [] => True
  | cmd :: cmds =>
      admissible cmd w
      ∧ match handleCommand g ch cmd w with
        | Done _ w' => all_admissible g ch cmds w'
        | _ => True
        end
  end.

(** The server of [aliceAloneWorld] when the session of [alice] is in
    progress, and a server whose sessions take no player. *)
Definition aliceInProgress (results : list error) : World :=
  set_manager (moved (exampleIDs 0) 0%nat (manager (aliceAloneWorld results)))
    (aliceAloneWorld results).

Definition noSeatsWorld : World :=
  NewWorld (NewSessionManager 1 0 (exampleConnection []) [exampleQuestion]).

(** A short run of the server: a join that fills a session, the move,
    an answer, the removal, and a join that makes the next session. *)
Definition exampleCommands : list SessionManagerCommand :=
  [joinCommand alice;
   sessionCommand MoveSessionToInProgress "s0";
   submitCommand "s0" alice 1;
   sessionCommand EndSession "s0";
   joinCommand bob].

(** ** Vocabulary of the handler and client properties *)

(** Every player of every session has a name and an id. *)
Definition named (p : Player) : Prop := Name p ≠ "" ∧ ID p ≠ "".

Definition players_named (w : World) : Prop :=
  ∀ l s k p, store w !! l = Some s → players s !! k = Some p → named p.

(** The player that [ConnectToSessionHandler] and [SubmitAnswerHandler]
    put into their commands. *)
Definition connecting (request : ConnectRequest) : Player :=
  {| Name := PlayerName request; ID := PlayerId request; Score := 0; hasVoted := false |}.

Definition answering (playerId : string) : Player :=
  {| Name := ""; ID := playerId; Score := 0; hasVoted := false |}.

(** A request that [ConnectToSessionHandler] turns away unseen. *)
Definition malformed (r : option ConnectRequest) : Prop :=
  match r with
  | None => True
  | Some request => PlayerName request = "" ∨ PlayerId request = ""
  end.

(** A [strconv.Atoi] for the sample runs: it reads one digit. *)
Definition digitAtoi (s : string) : Z * error :=
  match s with
  | String a EmptyString =>
      let n := Z.of_nat (Ascii.nat_of_ascii a) - 48 in
      if (0 <=? n) && (n <=? 9) then (n, None) else (0, Some "invalid syntax")
  | _ => (0, Some "invalid syntax")
  end.



(** * Properties *)

(** ** Go integers *)

Lemma int_wrap_in_range (z : Z) :
  int_min ≤ z ≤ int_max → int_wrap z = z.
Proof.
  unfold int_min, int_max, int_wrap. intros Hz.
  rewrite Z.mod_small; lia.
Qed.

Lemma int_inc_no_overflow (z : Z) :
  int_min ≤ z < int_max → int_inc z = z + 1.
Proof.
  intros Hz. unfold int_inc. apply int_wrap_in_range.
  unfold int_min, int_max in *. lia.
Qed.

Lemma int_dec_no_overflow (z : Z) :
  int_min < z ≤ int_max → int_dec z = z - 1.
Proof.
  intros Hz. unfold int_dec. apply int_wrap_in_range.
  unfold int_min, int_max in *. lia.
Qed.

(** ** Session.SubmitAnswer *)




(** C2. While the answered-flag of a player is set, a call of
    [SubmitAnswer] by that player fails with [AlreadyAnswered] and the
    session, scores included, is what it was. *)
Theorem SubmitAnswer_already_answered (s : Session) (player p : Player) (a : Z) :
  getPlayers s !! ID player = Some p →
  hasVoted p = true →
  Session_SubmitAnswer player a s = Returns (Some AlreadyAnswered, s).
Proof.
  intros Hp Hv. unfold Session_SubmitAnswer. by rewrite Hp, Hv.
Qed.

Lemma SubmitAnswer_already_answered_witness :
  Session_SubmitAnswer alice 1 aliceVotedSession
  = Returns (Some AlreadyAnswered, aliceVotedSession).
Proof.
  apply (SubmitAnswer_already_answered aliceVotedSession alice
           (with_hasVoted true alice) 1); reflexivity.
Defined.

(** A second submission straight after an accepted one is rejected. *)
Lemma SubmitAnswer_second_rejected (s s' : Session) (player : Player) (a b : Z) :
  players_keyed (players s) →
  Session_SubmitAnswer player a s = Returns (None, s') →
  Session_SubmitAnswer player b s' = Returns (Some AlreadyAnswered, s').
Proof.
  intros Hk H. unfold Session_SubmitAnswer in H.
  destruct (getPlayers s !! ID player) as [p|] eqn:Hp; [|done].
  destruct (hasVoted p) eqn:Hv; [done|].
  destruct (getCurrentQuestion s) as [q|]; [|done].
  injection H as <-. pose proof (Hk _ _ Hp) as Hid.
  unfold Session_SubmitAnswer, getPlayers, setPlayer. simpl.
  replace (ID (if a =? CorrectAnswer q then _ else p)) with (ID player)
    by (by destruct (a =? CorrectAnswer q)).
  by rewrite lookup_insert_eq.
Qed.

(** Without a question under the cursor the read [s.questions[i]] of
    [SubmitAnswer] panics. *)
Lemma SubmitAnswer_past_the_end (s : Session) (player p : Player) (a : Z) :
  getPlayers s !! ID player = Some p →
  hasVoted p = false →
  len (length (getQuestions s)) ≤ currentQuestion s →
  Session_SubmitAnswer player a s = Panics "index out of range".
Proof.
  intros Hp Hv Hc. unfold Session_SubmitAnswer, getCurrentQuestion.
  rewrite Hp, Hv.
  destruct (Z.ltb_spec (currentQuestion s) (len (length (getQuestions s)))); [lia|].
  by rewrite andb_false_r.
Qed.

(** ** Session.AddPlayer *)

(** C9. [AddPlayer] with an id that the session already has, below
    capacity: the call succeeds, the entry is replaced by the new name
    with score 0, the number of players is the same, and [startQuiz] is
    not started. *)
Theorem AddPlayer_existing_id (s : Session) (player p : Player) :
  players s !! ID player = Some p →
  len (size (players s)) < maxPlayersPerSession (config s) →
  let s' := set_players (<[ID player := joined player]> (players s)) s in
  Session_AddPlayer player s = (None, s', false)
  ∧ players s' !! ID player = Some (joined player)
  ∧ size (players s') = size (players s).
Proof.
  intros Hp Hlt s'.
  assert (Hsz : size (players s') = size (players s)).
  { unfold s'. simpl. rewrite <-(insert_delete_id (players s) (ID player) p) at 2 by done.
    rewrite <-insert_delete_eq.
    rewrite !map_size_insert_None by apply lookup_delete_eq. done. }
  split; [|split; [apply lookup_insert_eq | done]].
  unfold Session_AddPlayer. fold (joined player). fold s'.
  destruct (Z.ltb_spec (len (size (players s))) (maxPlayersPerSession (config s))); [|lia].
  rewrite Hsz. simpl.
  destruct (Z.eqb_spec (len (size (players s))) (maxPlayersPerSession (config s))); [lia|done].
Qed.

Lemma AddPlayer_existing_id_witness :
  let s' := set_players (<["a1" := joined alicia]> (players aliceSession)) aliceSession in
  Session_AddPlayer alicia aliceSession = (None, s', false)
  ∧ players s' !! "a1" = Some (joined alicia)
  ∧ size (players s') = size (players aliceSession).
Proof.
  apply (AddPlayer_existing_id aliceSession alicia alice); [reflexivity|].
  vm_compute. reflexivity.
Defined.

(** ** publishQuestion *)

Lemma resetVotes_fold (l : list Player) (s : Session) :
  let s' := foldl (λ acc player, setPlayer (with_hasVoted false player) acc) s l in
  config s' = config s ∧ currentQuestion s' = currentQuestion s
  ∧ publishChannel s' = publishChannel s ∧ SessionID s' = SessionID s
  ∧ cancelled s' = cancelled s.
Proof.
  revert s. induction l as [|p l IH]; intros s; simpl; [done|].
  destruct (IH (setPlayer (with_hasVoted false p) s)) as (-> & -> & -> & -> & ->).
  done.
Qed.

Lemma resetVotes_frame (s : Session) :
  config (resetVotes s) = config s
  ∧ currentQuestion (resetVotes s) = currentQuestion s
  ∧ publishChannel (resetVotes s) = publishChannel s.
Proof.
  unfold resetVotes.
  destruct (resetVotes_fold (map_to_list (getPlayers s)).*2 s) as (? & ? & ? & _).
  done.
Qed.

Lemma getCurrentQuestion_resetVotes (s : Session) :
  getCurrentQuestion (resetVotes s) = getCurrentQuestion s.
Proof.
  destruct (resetVotes_frame s) as (Hc & Hq & _).
  unfold getCurrentQuestion, getQuestions. by rewrite Hc, Hq.
Qed.

Lemma getCurrentQuestion_withheld (s1 s2 : Session) :
  currentQuestion s1 = currentQuestion s2 →
  withheld <$> getQuestions s1 = withheld <$> getQuestions s2 →
  withheld <$> getCurrentQuestion s1 = withheld <$> getCurrentQuestion s2.
Proof.
  intros Hc Hq. unfold getCurrentQuestion. rewrite <-Hc.
  assert (Hlen : length (getQuestions s1) = length (getQuestions s2)).
  { by rewrite <-(length_fmap withheld (getQuestions s1)), Hq, length_fmap. }
  rewrite <-Hlen.
  destruct (_ && _); [|done].
  by rewrite <-!list_lookup_fmap, Hq.
Qed.

(** C8. The [new_question] event that [publishQuestion] hands to the
    channel carries the question text and the ordered answer options and
    nothing else; two sessions that differ only in the correct-answer
    indices of their questions publish the same event with the same
    result. *)
Theorem publishQuestion_withholds_correct_answer (s1 s2 : Session) :
  currentQuestion s1 = currentQuestion s2 →
  publishChannel s1 = publishChannel s2 →
  withheld <$> getQuestions s1 = withheld <$> getQuestions s2 →
  match publishQuestion s1, publishQuestion s2 with
  | Returns (e1, s1'), Returns (e2, s2') =>
      e1 = e2
      ∧ publishChannel s1' = publishChannel s2'
      ∧ ∃ q, getCurrentQuestion s1 = Some q
             ∧ calls (publishChannel s1')
               = calls (publishChannel s1)
                  ++ [{| call_name := "new_question";
                         call_data :=
                           JSONQuestion {| Payload_Question := Question_text q;
                                           Payload_PossibleAnswers := PossibleAnswers q |};
                         call_result := e1 |}]
  | Panics m1, Panics m2 => m1 = m2
  | _, _ => False
  end.
Proof.
  intros Hc Hch Hq.
  pose proof (getCurrentQuestion_withheld s1 s2 Hc Hq) as Hcur.
  unfold publishQuestion. rewrite !getCurrentQuestion_resetVotes.
  destruct (resetVotes_frame s1) as (_ & _ & ->).
  destruct (resetVotes_frame s2) as (_ & _ & ->).
  rewrite <-Hch.
  destruct (getCurrentQuestion s1) as [q1|], (getCurrentQuestion s2) as [q2|];
    simpl in Hcur; try done.
  injection Hcur as Htext Hopts. unfold withheld in *. simpl.
  rewrite Htext, Hopts. split; [done|]. split; [done|].
  exists q1. split; [done|]. by rewrite Htext, Hopts.
Qed.

(** The sample session with another correct-answer index. *)
Lemma publishQuestion_withholds_correct_answer_witness :
  let q' := {| Question_text := "2+2?"; PossibleAnswers := ["3"; "4"];
               CorrectAnswer := 0 |} in
  let s2 := {| config := {| maxPlayersPerSession := 2;
                            maxTimePerQuestion := 3 * 1000000000;
                            questions := [q'] |};
               SessionID := "s0"; players := players aliceSession;
               currentQuestion := 0;
               publishChannel := publishChannel aliceSession;
               cancelled := false |} in
  match publishQuestion aliceSession, publishQuestion s2 with
  | Returns (e1, s1'), Returns (e2, s2') =>
      e1 = e2
      ∧ publishChannel s1' = publishChannel s2'
      ∧ ∃ q, getCurrentQuestion aliceSession = Some q
             ∧ calls (publishChannel s1')
               = calls (publishChannel aliceSession)
                 ++ [{| call_name := "new_question";
                        call_data :=
                          JSONQuestion {| Payload_Question := Question_text q;
                                          Payload_PossibleAnswers := PossibleAnswers q |};
                        call_result := e1 |}]
  | Panics m1, Panics m2 => m1 = m2
  | _, _ => False
  end.
Proof.
  intros q' s2.
  apply (publishQuestion_withholds_correct_answer aliceSession s2); reflexivity.
Defined.

(** ** Players are stored under their own id *)

Lemma NewSession_keyed (id : string) (c : SessionConfig) (ch : RealtimeChannel) :
  players_keyed (players (NewSession id c ch)).
Proof. intros k p. simpl. by rewrite lookup_empty. Qed.

Lemma insert_keyed (ps : gmap string Player) (p : Player) :
  players_keyed ps → players_keyed (<[ID p := p]> ps).
Proof.
  intros Hk k q. destruct (decide (ID p = k)) as [<-|Hne].
  - rewrite lookup_insert_eq. by intros [= <-].
  - rewrite lookup_insert_ne by done. apply Hk.
Qed.

Lemma AddPlayer_keyed (player : Player) (s : Session) :
  players_keyed (players s) →
  players_keyed (players (Session_AddPlayer player s).1.2).
Proof.
  intros Hk. unfold Session_AddPlayer.
  destruct (_ <? _); [|done].
  assert (players_keyed (<[ID player := joined player]> (players s)))
    by apply (insert_keyed _ (joined player) Hk).
  by destruct (_ =? _).
Qed.

Lemma SubmitAnswer_keyed (player : Player) (a : Z) (s s' : Session) (e : error) :
  players_keyed (players s) →
  Session_SubmitAnswer player a s = Returns (e, s') →
  players_keyed (players s').
Proof.
  intros Hk. unfold Session_SubmitAnswer.
  destruct (getPlayers s !! ID player) as [p|]; [|by intros [= _ <-]].
  destruct (hasVoted p); [by intros [= _ <-]|].
  destruct (getCurrentQuestion s) as [q|]; [|done].
  intros [= _ <-]. by apply insert_keyed.
Qed.

Lemma resetVotes_players_fold (l : list Player) (s : Session) :
  players (foldl (λ acc player, setPlayer (with_hasVoted false player) acc) s l)
  = foldl (λ m player, <[ID player := with_hasVoted false player]> m) (players s) l.
Proof. revert s. induction l as [|p l IH]; intros s; simpl; [done|]. by rewrite IH. Qed.

Lemma reset_fold_lookup (l : list (string * Player)) (m : gmap string Player) (i : string) :
  NoDup l.*1 →
  (∀ k p, (k, p) ∈ l → ID p = k) →
  foldl (λ m player, <[ID player := with_hasVoted false player]> m) m l.*2 !! i
  = match (list_to_map l : gmap string Player) !! i with
    | Some p => Some (with_hasVoted false p)
    | None => m !! i
    end.
Proof.
  revert m. induction l as [|[k p] l IH]; intros m Hnd Hk; simpl; [done|].
  apply NoDup_cons in Hnd as [Hnotin Hnd].
  assert (Hid : ID p = k) by (apply Hk; left).
  rewrite IH; [|done|intros k' p' Hin; apply Hk; by right].
  rewrite Hid. destruct (decide (k = i)) as [<-|Hne].
  - by rewrite (not_elem_of_list_to_map_1 _ _ Hnotin), !lookup_insert_eq.
  - by rewrite !(lookup_insert_ne _ k i).
Qed.

(** On such a map the first loop of [publishQuestion] clears the flag of
    every player and changes nothing else, whatever the order of the
    visit. *)
Lemma resetVotes_keyed (s : Session) :
  players_keyed (players s) →
  players (resetVotes s) = with_hasVoted false <$> players s.
Proof.
  intros Hk. unfold resetVotes, getPlayers. rewrite resetVotes_players_fold.
  apply map_eq. intros i.
  rewrite reset_fold_lookup.
  - rewrite list_to_map_to_list, lookup_fmap. by destruct (players s !! i).
  - apply NoDup_fst_map_to_list.
  - intros k p Hin%elem_of_map_to_list. by apply Hk.
Qed.

(** ** Computations on the world *)

Lemma bind_Done {A B} (c : Go A) (k : A → Go B) (w w' : World) (a : A) :
c w = Done a w' → bind c k w = k a w'.
Proof. intros H. unfold bind. by rewrite H. Qed.

Lemma onSession_Done {A} (l : loc) (f : Session → outcome (A * Session))
    (w : World) (s s' : Session) (a : A) :
  store w !! l = Some s →
  f s = Returns (a, s') →
  onSession l f w = Done a (set_store (<[l := s']> (store w)) w).
Proof. intros Hs Hf. unfold onSession. by rewrite Hs, Hf. Qed.

Lemma getSession_Done (l : loc) (w : World) (s : Session) :
  store w !! l = Some s → getSession l w = Done s w.
Proof.
  intros Hs. unfold getSession. erewrite onSession_Done by done.
  rewrite list_insert_id by done. by destruct w.
Qed.

Lemma updSession_Done (l : loc) (f : Session → Session) (w : World) (s : Session) :
  store w !! l = Some s →
  updSession l f w = Done tt (set_store (<[l := f s]> (store w)) w).
Proof. intros Hs. unfold updSession. by erewrite onSession_Done. Qed.

Lemma store_written (l : loc) (w : World) (s s' : Session) :
  store w !! l = Some s →
  store (set_store (<[l := s']> (store w)) w) !! l = Some s'.
Proof. intros Hs. simpl. apply list_lookup_insert_eq. by eapply lookup_lt_Some. Qed.

(** ** The session manager *)

Section RegistryProperties.

Variable generateUniqueID : nat → string.
Variable choose : gmap string loc → nat.

Local Abbreviation handle := (handleCommand generateUniqueID choose).
Local Abbreviation create := (createSession generateUniqueID).

(** C7. A [SubmitAnswer] command for a session id that is not in the
    in-progress partition is answered with [SessionNotFound], and the
    world (manager, sessions and their players, started tasks) is
    unchanged. *)
Theorem SubmitAnswer_session_not_found (w : World) (id : string) (p : Player) (a : Z) :
  inProgress (manager w) !! id = None →
  handle (submitCommand id p a) w = Done (failed SessionNotFound) w.
Proof.
  intros Hid. unfold handleCommand, bind, getManager. simpl. by rewrite Hid.
Qed.

(** C6. In a registry with no waiting session and [activeCount] equal to
    [maxSessions]: [JoinSession] fails with [CapacityExceeded] and
    leaves the world as it is; an [EndSession] command leaves
    [activeCount] one lower; then [createSession] succeeds once, with a
    new waiting session, and a second [createSession] fails. *)
Theorem capacity_and_release (w : World) (p : Player) (id : string) :
  waitingRooms (manager w) = ∅ →
  activeCount (manager w) = maxSessions (manager w) →
  int_min < maxSessions (manager w) ≤ int_max →
  handle (joinCommand p) w = Done (failed CapacityExceeded) w
  ∧ ∃ w1 w2,
      handle (sessionCommand EndSession id) w = Done (succeeded "") w1
      ∧ activeCount (manager w1) = activeCount (manager w) - 1
      ∧ create w1 = Done (generateUniqueID (idsGenerated w), None) w2
      ∧ waitingRooms (manager w2)
        = {[generateUniqueID (idsGenerated w) := length (store w)]}
      ∧ length (store w2) = S (length (store w))
      ∧ activeCount (manager w2) = maxSessions (manager w)
      ∧ create w2 = Done ("", Some CapacityExceeded) w2.
Proof.
  intros Hwait Hact Hrange. split.
  - unfold handleCommand, bind, getManager. simpl.
    rewrite Hwait, map_size_empty. simpl.
    unfold createSession, bind, getManager, ret. rewrite Hact.
    destruct (Z.geb_spec (maxSessions (manager w)) (maxSessions (manager w))); [done|lia].
  - eexists _, _. split; [reflexivity|]. simpl.
    assert (Hdec : int_dec (activeCount (manager w)) = activeCount (manager w) - 1).
    { apply int_dec_no_overflow. lia. }
    split; [done|].
    unfold createSession, bind, getManager, ret, updManager. simpl.
    rewrite Hdec, Hact.
    destruct (Z.geb_spec (maxSessions (manager w) - 1) (maxSessions (manager w))); [lia|].
    simpl.
    assert (Hinc : int_inc (maxSessions (manager w) - 1) = maxSessions (manager w)).
    { rewrite int_inc_no_overflow; lia. }
    split; [reflexivity|]. simpl. rewrite Hinc, Hwait.
    split; [done|]. split; [by rewrite length_app, Nat.add_1_r|]. split; [done|].
    destruct (Z.geb_spec (maxSessions (manager w)) (maxSessions (manager w))); [done|lia].
Qed.

End RegistryProperties.

Lemma SubmitAnswer_session_not_found_witness :
  handleCommand exampleIDs firstListed (submitCommand "s7" alice 1) (soloWorld [])
  = Done (failed SessionNotFound) (soloWorld []).
Proof.
  apply (SubmitAnswer_session_not_found exampleIDs firstListed (soloWorld [])
           "s7" alice 1).
  reflexivity.
Defined.

(** A server for one session whose only session, that of [alice], is in
    progress: [bob] is turned away; when the session of [alice] has
    ended there is room for one session, and for no more. *)
Lemma capacity_and_release_witness :
  let w := aliceInProgress [] in
  handleCommand exampleIDs firstListed (joinCommand bob) w
  = Done (failed CapacityExceeded) w
  ∧ ∃ w1 w2,
      handleCommand exampleIDs firstListed (sessionCommand EndSession "s0") w
      = Done (succeeded "") w1
      ∧ activeCount (manager w1) = activeCount (manager w) - 1
      ∧ createSession exampleIDs w1 = Done (exampleIDs (idsGenerated w), None) w2
      ∧ waitingRooms (manager w2) = {[exampleIDs (idsGenerated w) := length (store w)]}
      ∧ length (store w2) = S (length (store w))
      ∧ activeCount (manager w2) = maxSessions (manager w)
      ∧ createSession exampleIDs w2 = Done ("", Some CapacityExceeded) w2.
Proof.
  intros w.
  apply (capacity_and_release exampleIDs firstListed w bob "s0").
  - vm_compute. reflexivity.
  - reflexivity.
  - unfold int_min, int_max. simpl. lia.
Defined.

(** ** The registry invariant *)

Lemma onSession_manager {A} (l : loc) (f : Session → outcome (A * Session))
    (w w' : World) (a : A) :
  onSession l f w = Done a w' →
  manager w' = manager w ∧ started w' = started w
  ∧ idsGenerated w' = idsGenerated w ∧ length (store w') = length (store w).
Proof.
  unfold onSession. destruct (store w !! l) as [s|]; [|done].
  destruct (f s) as [[a' s']|]; [|done].
  intros [= _ <-]. simpl. by rewrite length_insert.
Qed.

Lemma AddPlayer_manager (l : loc) (p : Player) (w w' : World) (e : error) :
  AddPlayer l p w = Done e w' → manager w' = manager w.
Proof.
  unfold AddPlayer, bind. 
  destruct (onSession l _ w) as [[e' start] w1| |] eqn:Hon; [|done..].
  apply onSession_manager in Hon as (Hm & _). simpl.
  destruct start; simpl; intros [= _ <-]; done.
Qed.

Section Invariant.

Variable generateUniqueID : nat → string.
Variable choose : gmap string loc → nat.

Local Abbreviation handle := (handleCommand generateUniqueID choose).

Lemma EndSession_keeps_invariant (w : World) (id : string) :
  registry_ok (manager w) →
  is_Some (inProgress (manager w) !! id) →
  ∃ w', handle (sessionCommand EndSession id) w = Done (succeeded "") w'
        ∧ registry_ok (manager w').
Proof.
  intros ((Hdisj & Hcount) & Hmax & HmaxS) Hin.
  eexists. split; [reflexivity|]. simpl.
  assert (Hpos : (0 < size (inProgress (manager w)))%nat).
  { destruct Hin as [x Hx].
    assert (size (inProgress (manager w)) ≠ 0%nat); [|lia].
    apply map_size_ne_0_lookup. eauto. }
  assert (Hdec : int_dec (activeCount (manager w)) = activeCount (manager w) - 1).
  { apply int_dec_no_overflow. unfold len, int_min in *. lia. }
  split; [split|]; simpl.
  - by apply map_disjoint_delete_r.
  - rewrite Hdec, Hcount, (map_size_delete_Some _ _ Hin). unfold len. lia.
  - rewrite Hdec. lia.
Qed.

Lemma Move_keeps_invariant (w w' : World) (id : string) (r : SessionManagerResponse) :
  registry_ok (manager w) →
  handle (sessionCommand MoveSessionToInProgress id) w = Done r w' →
  registry_ok (manager w').
Proof.
  intros ((Hdisj & Hcount) & Hmax & HmaxS).
  unfold handleCommand, bind, getManager. simpl.
  destruct (waitingRooms (manager w) !! id) as [l|] eqn:Hl; intros [= _ <-]; [|done].
  pose proof (map_disjoint_Some_l _ _ _ _ Hdisj Hl) as Hnone.
  assert (Hpos : (0 < size (waitingRooms (manager w)))%nat).
  { assert (size (waitingRooms (manager w)) ≠ 0%nat); [|lia].
    apply map_size_ne_0_lookup. eauto. }
  split; [split|]; simpl; [| |done].
  - apply map_disjoint_insert_r_2; [apply lookup_delete_eq|].
    by apply map_disjoint_delete_l.
  - rewrite Hcount, map_size_insert_None by done.
    rewrite map_size_delete_Some by eauto. unfold len. lia.
Qed.

Lemma Submit_keeps_manager (w w' : World) (id : string) (p : Player) (a : Z)
    (r : SessionManagerResponse) :
  handle (submitCommand id p a) w = Done r w' → manager w' = manager w.
Proof.
  unfold handleCommand, bind, getManager. simpl.
  destruct (inProgress (manager w) !! id) as [l|]; [|by intros [= _ <-]].
  destruct (onSession l _ w) as [e w1| |] eqn:Hon; [|done..].
  apply onSession_manager in Hon as (Hm & _). by intros [= _ <-].
Qed.

Lemma createSession_room (w : World) :
  activeCount (manager w) < maxSessions (manager w) →
  createSession generateUniqueID w
  = Done (generateUniqueID (idsGenerated w), None) (withNewSession generateUniqueID w).
Proof.
  intros Hroom. unfold createSession, bind, getManager.
  destruct (Z.geb_spec (activeCount (manager w)) (maxSessions (manager w))); [lia|].
  reflexivity.
Qed.

Lemma createSession_full (w : World) :
  maxSessions (manager w) ≤ activeCount (manager w) →
  createSession generateUniqueID w = Done ("", Some CapacityExceeded) w.
Proof.
  intros Hfull. unfold createSession, bind, getManager.
  destruct (Z.geb_spec (activeCount (manager w)) (maxSessions (manager w))); [|lia].
  reflexivity.
Qed.

Lemma Join_keeps_invariant (w w' : World) (p : Player) (r : SessionManagerResponse) :
  registry_ok (manager w) →
  inProgress (manager w) !! generateUniqueID (idsGenerated w) = None →
  handle (joinCommand p) w = Done r w' →
  registry_ok (manager w').
Proof.
  intros Hok Hfresh.
  unfold handleCommand. simpl. unfold bind at 1, getManager.
  destruct (Z.gtb_spec (len (size (waitingRooms (manager w)))) 0) as [Hsome|Hnone].
  - destruct (rangeFirst choose (waitingRooms (manager w))) as [[id l]|]; [|by unfold panic].
    unfold bind. destruct (AddPlayer l p w) as [e w1| |] eqn:Hadd; [|done..].
    apply AddPlayer_manager in Hadd. intros [= _ <-]. by rewrite Hadd.
  - assert (Hempty : waitingRooms (manager w) = ∅).
    { apply map_size_empty_inv. unfold len in Hnone. lia. }
    destruct Hok as ((Hdisj & Hcount) & Hmax & HmaxS).
    destruct (Z.lt_ge_cases (activeCount (manager w)) (maxSessions (manager w)))
      as [Hroom|Hfull].
    + rewrite (bind_Done _ _ _ _ _ (createSession_room w Hroom)). simpl.
      unfold bind at 1. simpl. rewrite lookup_insert_eq. unfold bind.
      destruct (AddPlayer _ p _) as [e w1| |] eqn:Hadd; [|done..].
      apply AddPlayer_manager in Hadd. intros [= _ <-]. rewrite Hadd. simpl.
      rewrite Hempty, map_size_empty in Hcount.
      assert (Hinc : int_inc (activeCount (manager w)) = activeCount (manager w) + 1).
      { apply int_inc_no_overflow. unfold len, int_min in *. lia. }
      split; [split|]; simpl.
      * rewrite Hempty, insert_empty. by apply map_disjoint_singleton_l.
      * rewrite Hinc, Hcount, Hempty, insert_empty, map_size_singleton.
        unfold len. lia.
      * rewrite Hinc. lia.
    + rewrite (bind_Done _ _ _ _ _ (createSession_full w Hfull)). simpl.
      by intros [= _ <-].
Qed.

(** Every command keeps the invariant of the registry, but for an
    [EndSession] whose session is not in progress. *)
Lemma handleCommand_keeps_invariant (w w' : World) (cmd : SessionManagerCommand)
    (r : SessionManagerResponse) :
  registry_ok (manager w) →
  inProgress (manager w) !! generateUniqueID (idsGenerated w) = None →
  (CommandType cmd = EndSession → is_Some (inProgress (manager w) !! SessionId cmd)) →
  handle cmd w = Done r w' →
  registry_ok (manager w').
Proof.
  intros Hok Hfresh Hend. destruct cmd as [[| | | |n] p a id]; simpl in Hend.
  - intros H. by rewrite (Submit_keeps_manager _ _ _ _ _ _ H).
  - by apply Join_keeps_invariant.
  - by apply Move_keeps_invariant.
  - destruct (EndSession_keeps_invariant w id Hok (Hend eq_refl)) as (w1 & H1 & Hok1).
    intros H. unfold sessionCommand in H1.
    assert (Heq : handle {| CommandType := EndSession; player := p; answer := a;
                             SessionId := id |} w = Done (succeeded "") w1) by exact H1.
    rewrite Heq in H. by injection H as _ <-.
  - by intros [= _ <-].
Qed.

End Invariant.

(** C4 fails on the code. The commands that one session sends when its
    first publish fails ([JoinSession], [MoveSessionToInProgress], then
    [EndSession] twice) are all answered, and leave [activeCount] at -1
    with both partitions empty: the second [EndSession] finds no session
    and decrements the counter all the same. The run of [startQuiz] on a
    channel that refuses the first publish is such a sequence. *)
Theorem EndSession_twice_breaks_invariant :
  (∃ rs w,
     runCommands exampleIDs firstListed
       [joinCommand alice;
        sessionCommand MoveSessionToInProgress "s0";
        sessionCommand EndSession "s0";
        sessionCommand EndSession "s0"] (soloWorld []) = Done rs w
     ∧ Error <$> rs = [None; None; None; None]
     ∧ waitingRooms (manager w) = ∅
     ∧ inProgress (manager w) = ∅
     ∧ activeCount (manager w) = -1
     ∧ ¬ registry_invariant (manager w))
  ∧ (∃ w,
       (handleCommand exampleIDs firstListed (joinCommand alice) ;;;
        startQuiz exampleIDs firstListed 2 0%nat) (soloWorld [Some "down"])
       = Done tt w
       ∧ ¬ registry_invariant (manager w)).
Proof.
  split.
  - eexists _, _. split; [vm_compute; reflexivity|].
    split; [reflexivity|]. split; [reflexivity|]. split; [reflexivity|].
    split; [reflexivity|].
    intros [_ Hcount]. vm_compute in Hcount. discriminate Hcount.
  - eexists. split; [vm_compute; reflexivity|].
    intros [_ Hcount]. vm_compute in Hcount. discriminate Hcount.
Qed.

(** ** The progression task *)

Section Task.

Variable generateUniqueID : nat → string.
Variable choose : gmap string loc → nat.

Local Abbreviation handle := (handleCommand generateUniqueID choose).
Local Abbreviation endS := (endSession generateUniqueID choose).
Local Abbreviation loop := (questionLoop generateUniqueID choose).
Local Abbreviation start := (startQuiz generateUniqueID choose).

(** [endSession] on a live session: one [quiz-end] event, one
    [EndSession] command, and the session is cancelled. *)
Lemma endSession_Done (l : loc) (w : World) (s : Session) :
  store w !! l = Some s →
  endS l w
  = Done tt {| manager := removed (SessionID s) (manager w);
               store := <[l := ended s]> (store w);
               started := started w;
               idsGenerated := idsGenerated w |}.
Proof.
  intros Hs. unfold endSession, publish.
  erewrite bind_Done; [|by eapply onSession_Done].
  erewrite bind_Done; [|eapply getSession_Done, store_written, Hs].
  unfold bind at 1. simpl.
  erewrite updSession_Done; [|eapply store_written, Hs].
  simpl. by rewrite list_insert_insert_eq.
Qed.

Lemma Move_refused (w : World) (id : string) :
  waitingRooms (manager w) !! id = None →
  handle (sessionCommand MoveSessionToInProgress id) w
  = Done (failed SessionNotFound) w.
Proof. intros Hw. unfold handleCommand, bind, getManager. simpl. by rewrite Hw. Qed.

(** When the registry refuses the move to in progress, [startQuiz]
    publishes the end-of-quiz event, asks for the removal of the session
    and returns: no question is published. *)
Lemma startQuiz_move_refused (fuel : nat) (l : loc) (w : World) (s : Session) :
  store w !! l = Some s →
  waitingRooms (manager w) !! SessionID s = None →
  ∃ w', start fuel l w = Done tt w'
        ∧ store w' !! l = Some (ended s)
        ∧ calls (publishChannel (ended s))
          = calls (publishChannel s)
            ++ [{| call_name := "quiz-end";
                   call_data := Text "thank you for playing";
                   call_result := hd None (script (publishChannel s)) |}].
Proof.
  intros Hs Hw. eexists. split; [|split].
  - unfold startQuiz. erewrite bind_Done; [|by eapply getSession_Done].
    erewrite bind_Done; [|by apply Move_refused]. simpl.
    by apply endSession_Done.
  - simpl. apply list_lookup_insert_eq. by eapply lookup_lt_Some.
  - reflexivity.
Qed.

(** When the publish of a question fails, the loop publishes the
    end-of-quiz event, asks for the removal of the session and makes
    [startQuiz] return. *)
Lemma questionLoop_publish_fails (fuel : nat) (l : loc) (w : World) (s : Session)
    (q : Question) (e : string) :
  store w !! l = Some s →
  getCurrentQuestion s = Some q →
  hd None (script (publishChannel s)) = Some e →
  ∃ w' s', loop (S fuel) l w = Done false w'
           ∧ store w' !! l = Some s'
           ∧ (λ c, (call_name c, call_result c)) <$> calls (publishChannel s')
             = ((λ c, (call_name c, call_result c)) <$> calls (publishChannel s))
               ++ [("new_question", Some e);
                   ("quiz-end", hd None (tl (script (publishChannel s))))].
Proof.
  intros Hs Hq He.
  assert (Hin : currentQuestion s < len (length (getQuestions s))).
  { unfold getCurrentQuestion in Hq.
    destruct (Z.ltb_spec (currentQuestion s) (len (length (getQuestions s)))); [done|].
    by rewrite andb_false_r in Hq. }
  destruct (resetVotes_frame s) as (Hcfg & Hcur & Hch).
  eexists _, _. split; [|split].
  - simpl. erewrite bind_Done; [|by eapply getSession_Done].
    unfold getCurrentQuestionCounter.
    destruct (Z.geb_spec (currentQuestion s) (len (length (getQuestions s)))); [lia|].
    erewrite bind_Done.
    2:{ eapply onSession_Done; [done|]. unfold publishQuestion.
        rewrite getCurrentQuestion_resetVotes, Hq, Hch. unfold Publish.
        rewrite He. reflexivity. }
    simpl. erewrite bind_Done; [|eapply endSession_Done, store_written, Hs].
    reflexivity.
  - simpl. rewrite list_insert_insert_eq. apply list_lookup_insert_eq.
    by eapply lookup_lt_Some.
  - simpl. rewrite !fmap_app, <-app_assoc. reflexivity.
Qed.

(** The loop of [startQuiz] ends: fuel above the number of questions
    still to ask is never used up. *)
Lemma questionLoop_terminates (fuel : nat) (l : loc) (w : World) (s : Session) :
  store w !! l = Some s →
  Z.max 0 (len (length (getQuestions s)) - currentQuestion s) < len fuel →
  len (length (getQuestions s)) ≤ int_max →
  loop fuel l w ≠ OutOfFuel.
Proof.
  revert w s. induction fuel as [|fuel IH]; intros w s Hs Hfuel Hmax.
  - unfold len in *. simpl in Hfuel. lia.
  - simpl. erewrite bind_Done; [|by eapply getSession_Done].
    unfold getCurrentQuestionCounter.
    destruct (Z.geb_spec (currentQuestion s) (len (length (getQuestions s))));
      [by unfold ret|].
    unfold bind at 1, onSession at 1. rewrite Hs.
    destruct (publishQuestion s) as [[err s1]|] eqn:Hq; [|done].
    assert (Hs1 : config s1 = config s ∧ currentQuestion s1 = currentQuestion s).
    { unfold publishQuestion in Hq. destruct (resetVotes_frame s) as (Hcfg & Hcur & _).
      destruct (getCurrentQuestion (resetVotes s)); [|done].
      injection Hq as _ <-. done. }
    destruct Hs1 as [Hcfg Hcur].
    destruct err as [e|].
    + erewrite bind_Done; [|eapply endSession_Done, store_written, Hs]. done.
    + erewrite bind_Done; [|eapply updSession_Done, store_written, Hs].
      eapply IH.
      * eapply store_written, store_written, Hs.
      * unfold getQuestions in *. simpl. rewrite Hcfg, Hcur.
        destruct (Z.le_gt_cases 0 (currentQuestion s)) as [Hpos|Hneg].
        -- rewrite int_inc_no_overflow by (unfold int_min, int_max in *; lia).
           unfold len in *. lia.
        -- exfalso. unfold publishQuestion, getCurrentQuestion in Hq.
           destruct (resetVotes_frame s) as (_ & Hcur' & _). rewrite Hcur' in Hq.
           destruct (Z.leb_spec 0 (currentQuestion s)); [lia|]. done.
      * unfold getQuestions in *. simpl. by rewrite Hcfg.
Qed.

End Task.

(** C3 fails on the code. [alice] fills a one-player session whose
    channel refuses the first publish, the notice that the quiz starts,
    and answers the later ones in any way. [startQuiz] publishes the
    end-of-quiz event and asks for the removal of the session, and then
    goes on: it publishes the question and asks for the removal a second
    time, which leaves [activeCount] at -1. *)
Theorem startQuiz_goes_on_after_failed_notice (e : string) (later : list error) :
  ∃ w r1 r2 more,
    (handleCommand exampleIDs firstListed (joinCommand alice) ;;;
     startQuiz exampleIDs firstListed 2 0%nat) (soloWorld (Some e :: later))
    = Done tt w
    ∧ callsOf 0%nat w
      = ("quiz-update", Some e) :: ("quiz-end", r1) :: ("new_question", r2) :: more
    ∧ ¬ no_question_after_failure (callsOf 0%nat w)
    ∧ activeCount (manager w) = -1.
Proof.
  assert (Hbad : ∀ r1 r2 more,
    ¬ no_question_after_failure
        (("quiz-update", Some e) :: ("quiz-end", r1) :: ("new_question", r2) :: more)).
  { intros r1 r2 more Hno.
    exact (Hno 0%nat 2%nat "quiz-update" "new_question" e r2 eq_refl
             (Nat.lt_0_succ 1) eq_refl eq_refl). }
  destruct later as [|r1 [|[e2|] later]];
    eexists _, _, _, _;
    (split; [vm_compute; reflexivity|]);
    (split; [vm_compute; reflexivity|]);
    (split; [apply Hbad | vm_compute; reflexivity]).
Qed.

(** C10 fails on the code. [alice] plays alone on a one-question bank and
    does not answer. When the loop of [startQuiz] has moved the cursor
    past the last question, the session is still in progress; a
    [SubmitAnswer] command that arrives then is routed to the session and
    its read of the current question is out of range. *)
Theorem SubmitAnswer_after_last_question_panics :
  (handleCommand exampleIDs firstListed (joinCommand alice) ;;;
   handleCommand exampleIDs firstListed (sessionCommand MoveSessionToInProgress "s0") ;;;
   publish 0%nat "quiz-update" (Text "Quiz starting in 3 seconds") ;;;
   questionLoop exampleIDs firstListed 2 0%nat ;;;
   handleCommand exampleIDs firstListed (submitCommand "s0" alice 1))
    (soloWorld [])
  = Panic "index out of range".
Proof. vm_compute. reflexivity. Qed.

(** ** Filling a session *)

Lemma roster_snoc ps p : roster (ps ++ [p]) = <[ID p := joined p]> (roster ps).
Proof. unfold roster. by rewrite foldl_app. Qed.

Lemma roster_dom ps : dom (roster ps) = list_to_set (ID <$> ps).
Proof.
  induction ps as [|p ps IH] using rev_ind; [apply dom_empty_L|].
  rewrite roster_snoc, dom_insert_L, IH, fmap_app, list_to_set_app_L. simpl.
  rewrite (right_id_L ∅ (∪)). apply (comm_L (∪)).
Qed.

Lemma roster_size ps : NoDup (ID <$> ps) → size (roster ps) = length ps.
Proof.
  induction ps as [|p ps IH] using rev_ind; intros Hnd; [done|].
  rewrite fmap_app in Hnd. apply NoDup_app in Hnd as (Hps & Hp & _).
  rewrite roster_snoc, map_size_insert_None, IH, length_app, Nat.add_1_r; [done..|].
  apply not_elem_of_dom. rewrite roster_dom. intros Hin%elem_of_list_to_set.
  apply (Hp _ Hin). simpl. apply list_elem_of_singleton. done.
Qed.

Section JoinSequence.

Variable generateUniqueID : nat → string.
Variable choose : gmap string loc → nat.
Variable maxS : Z.
Variable conn : string → RealtimeChannel.
Variable qs : list Question.
Variable n : nat.

Local Abbreviation handle := (handleCommand generateUniqueID choose).

Local Abbreviation id0 := (generateUniqueID 0%nat).
Local Abbreviation cfg := (firstConfig qs n).
Local Abbreviation m1 := (firstManager generateUniqueID maxS conn qs n).
Local Abbreviation created := (firstCreated generateUniqueID maxS conn qs n).
Local Abbreviation filling := (firstFilling generateUniqueID maxS conn qs n).

Lemma AddPlayer_filling (ps : list Player) (p : Player) :
  (length ps < n)%nat →
  NoDup (ID <$> (ps ++ [p])) →
  AddPlayer 0%nat p
    {| manager := m1;
       store := [set_players (roster ps) (NewSession id0 cfg (conn id0))];
       started := [];
       idsGenerated := 1 |}
  = Done None (filling (ps ++ [p])).
Proof.
  intros Hlt Hnd.
  assert (Hps : NoDup (ID <$> ps)).
  { rewrite fmap_app in Hnd. by apply NoDup_app in Hnd as (? & _). }
  unfold AddPlayer, bind, onSession, Session_AddPlayer. simpl.
  rewrite (roster_size ps Hps).
  destruct (Z.ltb_spec (len (length ps)) (len n)); [|unfold len in *; lia].
  fold (joined p). rewrite <-roster_snoc, (roster_size _ Hnd).
  unfold firstFilling. rewrite length_app. simpl.
  destruct (Z.eqb_spec (len (length ps + 1)) (len n)) as [Heq|Hne]; simpl.
  - rewrite decide_True by (unfold len in *; lia). done.
  - rewrite decide_False by (unfold len in *; lia). done.
Qed.

Lemma createSession_first :
  1 ≤ maxS →
  createSession generateUniqueID (NewWorld (NewSessionManager maxS (len n) conn qs))
  = Done (id0, None) created.
Proof.
  intros HmaxS. unfold createSession, bind, getManager, ret. simpl.
  destruct (Z.geb_spec 0 maxS); [lia|]. simpl.
  unfold firstCreated, firstManager, set_manager, set_waitingRooms, set_activeCount.
  simpl.
  by rewrite insert_empty.
Qed.

Lemma join_first (p : Player) :
  1 ≤ maxS → (0 < n)%nat →
  handle (joinCommand p) (NewWorld (NewSessionManager maxS (len n) conn qs))
  = Done (succeeded id0) (filling [p]).
Proof.
  intros HmaxS Hn.
  unfold handleCommand. simpl. unfold bind at 1. simpl.
  rewrite map_size_empty. simpl.
  erewrite bind_Done; [|by apply createSession_first]. simpl.
  unfold bind at 1. simpl. rewrite lookup_singleton_eq.
  change created with
    {| manager := m1;
       store := [set_players (roster []) (NewSession id0 cfg (conn id0))];
       started := [];
       idsGenerated := 1 |}.
  unfold bind. rewrite (AddPlayer_filling [] p Hn); [done|].
  simpl. apply NoDup_singleton.
Qed.

Lemma rangeFirst_singleton (id : string) (l : loc) :
  rangeFirst choose {[id := l]} = Some (id, l).
Proof.
  unfold rangeFirst. rewrite map_to_list_singleton.
  change (length [(id, l)]) with 1%nat. by rewrite Nat.mod_1_r.
Qed.

Lemma join_next (ps : list Player) (p : Player) :
  (length ps < n)%nat →
  NoDup (ID <$> (ps ++ [p])) →
  handle (joinCommand p) (filling ps) = Done (succeeded id0) (filling (ps ++ [p])).
Proof.
  intros Hlt Hnd.
  unfold handleCommand. simpl. unfold bind at 1. simpl.
  rewrite map_size_singleton. simpl.
  rewrite rangeFirst_singleton.
  unfold firstFilling at 1. rewrite decide_False by lia.
  unfold bind. rewrite (AddPlayer_filling ps p Hlt Hnd). done.
Qed.

Lemma join_rest (rest ps : list Player) :
  (length ps + length rest = n)%nat →
  NoDup (ID <$> (ps ++ rest)) →
  runCommands generateUniqueID choose (joinCommand <$> rest) (filling ps)
  = Done (replicate (length rest) (succeeded id0)) (filling (ps ++ rest)).
Proof.
  revert ps. induction rest as [|p rest IH]; intros ps Hlen Hnd.
  - simpl. by rewrite app_nil_r.
  - simpl in *. rewrite cons_middle, app_assoc in Hnd |- *.
    assert (Hp : NoDup (ID <$> (ps ++ [p]))).
    { rewrite fmap_app in Hnd. by apply NoDup_app in Hnd as (? & _). }
    erewrite bind_Done; [|apply join_next; [lia|done]].
    erewrite bind_Done; [|apply IH; [rewrite length_app; simpl; lia|done]].
    done.
Qed.

Lemma move_filled (ps : list Player) :
  length ps = n →
  ∃ w', handle (sessionCommand MoveSessionToInProgress id0) (filling ps)
        = Done (succeeded "") w'
        ∧ waitingRooms (manager w') = ∅
        ∧ inProgress (manager w') = {[id0 := 0%nat]}
        ∧ handle (sessionCommand MoveSessionToInProgress id0) w'
          = Done (failed SessionNotFound) w'.
Proof.
  intros Hlen. eexists.
  unfold handleCommand, bind, getManager, ret, updManager. simpl.
  rewrite lookup_singleton_eq. simpl.
  split; [reflexivity|]. simpl.
  rewrite delete_singleton_eq, insert_empty. split; [done|]. split; [done|].
  by rewrite lookup_empty.
Qed.

(** C5, amended. From an empty registry that may hold at least one
    session, as many join calls as a session has places, by players with
    pairwise distinct ids, fill one session: all calls are answered with
    the id of the same session, [startQuiz] is started once, for that
    session, which holds exactly the ids of the callers; the move to in
    progress that [startQuiz] asks for succeeds and a second one is
    refused. *)
Theorem joins_fill_one_session (joins : list Player) :
  length joins = n →
  1 ≤ maxS →
  joins ≠ [] →
  NoDup (ID <$> joins) →
  one_session_starts generateUniqueID choose
    (NewWorld (NewSessionManager maxS (len n) conn qs)) joins.
Proof.
  intros Hlen HmaxS Hne Hnd.
  destruct joins as [|p rest]; [done|]. simpl in Hlen.
  destruct (move_filled (p :: rest) Hlen) as (w' & Hmove & Hw & Hin & Hagain).
  exists (replicate (S (length rest)) (succeeded id0)), (filling (p :: rest)),
    0%nat, (set_players (roster (p :: rest)) (NewSession id0 cfg (conn id0))), w'.
  split.
  { simpl. erewrite bind_Done; [|apply join_first; [done|lia]].
    erewrite bind_Done; [|apply (join_rest rest [p]); [simpl; lia|done]].
    done. }
  split; [by apply Forall_replicate|].
  split; [unfold firstFilling; simpl; by rewrite decide_True|].
  split; [done|].
  split; [apply roster_dom|].
  split; [simpl; rewrite (roster_size _ Hnd); simpl; unfold len; lia|].
  done.
Qed.

End JoinSequence.

Lemma joins_fill_one_session_witness :
  one_session_starts exampleIDs firstListed
    (NewWorld (NewSessionManager 1 (len 2) (exampleConnection []) [exampleQuestion]))
    [alice; bob].
Proof.
  apply (joins_fill_one_session exampleIDs firstListed 1 (exampleConnection [])
           [exampleQuestion] 2 [alice; bob]).
  - reflexivity.
  - lia.
  - discriminate.
  - apply NoDup_cons. split; [|apply NoDup_singleton].
    intros H%list_elem_of_singleton. discriminate H.
Defined.

(** C5, as stated, fails: two join calls that carry the same player id,
    on a server whose sessions take two players, start no session. *)
Lemma joins_with_one_id_start_no_session :
  ¬ one_session_starts exampleIDs firstListed
      (NewWorld (NewSessionManager 1 2 (exampleConnection []) [exampleQuestion]))
      [alice; alicia].
Proof.
  intros (rs & w & l & s & w' & Hrun & _ & Hstarted & _).
  vm_compute in Hrun. injection Hrun as _ <-. discriminate Hstarted.
Qed.

(** * Further properties of the session *)

(** ** AddPlayer *)

(** X1. [AddPlayer] with an id that the session does not have, below
    capacity: the call succeeds, the player is stored with score 0 and a
    clear flag, the session has one player more, the others are as they
    were, and [startQuiz] is started exactly when the session is now
    full. *)
Theorem AddPlayer_new_id (s : Session) (player : Player) :
  players s !! ID player = None →
  len (size (players s)) < maxPlayersPerSession (config s) →
  let s' := set_players (<[ID player := joined player]> (players s)) s in
  Session_AddPlayer player s
  = (None, s',
     bool_decide (len (size (players s)) + 1 = maxPlayersPerSession (config s)))
  ∧ players s' !! ID player = Some (joined player)
  ∧ size (players s') = S (size (players s))
  ∧ ∀ k, k ≠ ID player → players s' !! k = players s !! k.
Proof.
  intros Hnew Hlt s'.
  assert (Hsz : size (players s') = S (size (players s)))
    by (by apply map_size_insert_None).
  split; [|split; [apply lookup_insert_eq|split; [done|]]].
  - unfold Session_AddPlayer. fold (joined player). fold s'.
    destruct (Z.ltb_spec (len (size (players s))) (maxPlayersPerSession (config s))); [|lia].
    rewrite Hsz. change (config s') with (config s).
    destruct (Z.eqb_spec (len (S (size (players s))))
                (maxPlayersPerSession (config s))) as [Heq|Hne].
    + rewrite bool_decide_eq_true_2 by (unfold len in *; lia). done.
    + rewrite bool_decide_eq_false_2 by (unfold len in *; lia). done.
  - intros k Hk. simpl. by rewrite lookup_insert_ne.
Qed.

Lemma AddPlayer_new_id_witness :
  let s' := set_players (<["b1" := joined bob]> (players aliceSession)) aliceSession in
  Session_AddPlayer bob aliceSession = (None, s', true)
  ∧ players s' !! "b1" = Some (joined bob)
  ∧ size (players s') = 2%nat
  ∧ ∀ k, k ≠ "b1" → players s' !! k = players aliceSession !! k.
Proof.
  apply (AddPlayer_new_id aliceSession bob); [reflexivity|].
  vm_compute. reflexivity.
Defined.

Lemma AddPlayer_full (s : Session) (player : Player) :
  maxPlayersPerSession (config s) ≤ len (size (players s)) →
  Session_AddPlayer player s = (Some SessionFull, s, false).
Proof.
  intros Hfull. unfold Session_AddPlayer.
  destruct (Z.ltb_spec (len (size (players s))) (maxPlayersPerSession (config s))); [lia|done].
Qed.

Lemma AddPlayer_frame (s : Session) (player : Player) :
  let s' := (Session_AddPlayer player s).1.2 in
  config s' = config s ∧ currentQuestion s' = currentQuestion s
  ∧ publishChannel s' = publishChannel s ∧ SessionID s' = SessionID s.
Proof.
  unfold Session_AddPlayer. destruct (_ <? _); [|done]. by destruct (_ =? _).
Qed.

Lemma AddPlayer_size (s : Session) (player : Player) :
  let s' := (Session_AddPlayer player s).1.2 in
  (size (players s) ≤ size (players s') ≤ S (size (players s)))%nat.
Proof.
  unfold Session_AddPlayer. destruct (_ <? _); [|simpl; lia].
  assert (size (players s) ≤ size (<[ID player := joined player]> (players s))
          ≤ S (size (players s)))%nat.
  { rewrite map_size_insert. destruct (players s !! ID player); simpl; lia. }
  by destruct (_ =? _).
Qed.

Lemma AddPlayer_started (s : Session) (player : Player) :
  (Session_AddPlayer player s).2 = true →
  len (size (players (Session_AddPlayer player s).1.2)) = maxPlayersPerSession (config s).
Proof.
  unfold Session_AddPlayer. destruct (_ <? _); [|done].
  cbv zeta. destruct (_ =? _) eqn:Heq; [|done].
  intros _. by apply Z.eqb_eq in Heq.
Qed.

(** X2. [AddPlayer] keeps the number of players within the configured
    maximum. *)
Theorem AddPlayer_within_capacity (s : Session) (player : Player) :
  len (size (players s)) ≤ maxPlayersPerSession (config s) →
  let s' := (Session_AddPlayer player s).1.2 in
  len (size (players s')) ≤ maxPlayersPerSession (config s')
  ∧ maxPlayersPerSession (config s') = maxPlayersPerSession (config s).
Proof.
  intros Hle s'. destruct (AddPlayer_frame s player) as (Hcfg & _).
  fold s' in Hcfg. rewrite Hcfg. split; [|done].
  pose proof (AddPlayer_size s player) as Hsz. fold s' in Hsz.
  destruct (Z.lt_ge_cases (len (size (players s))) (maxPlayersPerSession (config s)))
    as [Hlt|Hge].
  - unfold len in *. lia.
  - unfold s'. rewrite AddPlayer_full by lia. done.
Qed.

Lemma AddPlayer_within_capacity_witness :
  let s' := (Session_AddPlayer bob aliceSession).1.2 in
  len (size (players s')) ≤ maxPlayersPerSession (config s')
  ∧ maxPlayersPerSession (config s') = maxPlayersPerSession (config aliceSession).
Proof.
  apply (AddPlayer_within_capacity aliceSession bob). vm_compute. discriminate.
Defined.

Lemma addPlayers_full (ps : list Player) (s : Session) :
  maxPlayersPerSession (config s) ≤ len (size (players s)) →
  starts (addPlayers ps s).1 = 0%nat ∧ (addPlayers ps s).2 = s.
Proof.
  intros Hfull. induction ps as [|p ps IH]; [done|].
  simpl. rewrite AddPlayer_full by done.
  destruct (addPlayers ps s) as [rs s'']. simpl in *.
  destruct IH as [IH ->]. split; [|done].
  unfold starts in *. rewrite filter_cons_False by (simpl; discriminate). done.
Qed.

(** X3. Whatever players are added to a session, in whatever state it
    is, [startQuiz] is started at most once; and when it was started the
    session holds as many players as it can take, and stays so. *)
Theorem AddPlayer_starts_at_most_once (ps : list Player) (s : Session) :
  (starts (addPlayers ps s).1 ≤ 1)%nat
  ∧ (starts (addPlayers ps s).1 = 1%nat →
     len (size (players (addPlayers ps s).2)) = maxPlayersPerSession (config s)).
Proof.
  revert s. induction ps as [|p ps IH]; intros s.
  - simpl. split; [unfold starts; simpl; lia|]. unfold starts. simpl. lia.
  - simpl.
    pose proof (AddPlayer_started s p) as Hst.
    destruct (AddPlayer_frame s p) as (Hcfg & _).
    destruct (Session_AddPlayer p s) as [[err s'] start]. simpl in *.
    destruct start.
    + specialize (Hst eq_refl).
      destruct (addPlayers_full ps s') as [H0 Hs']; [rewrite Hcfg; lia|].
      destruct (addPlayers ps s') as [rs s'']. simpl in *. subst s''.
      unfold starts in *. rewrite filter_cons_True by done. simpl.
      rewrite H0. split; [lia|done].
    + destruct (IH s') as [IH1 IH2].
      destruct (addPlayers ps s') as [rs s'']. simpl in *.
      unfold starts in *. rewrite filter_cons_False by (simpl; discriminate).
      rewrite <-Hcfg. done.
Qed.

(** ** SubmitAnswer *)

(** X4. Whatever [SubmitAnswer] returns, it touches nothing but the
    entry of the player who answers: configuration, cursor, channel and
    the other players are as they were, no player is added or removed,
    and a call that returns an error changes nothing at all. *)
Theorem SubmitAnswer_frame (s s' : Session) (player : Player) (a : Z) (e : error) :
  players_keyed (players s) →
  Session_SubmitAnswer player a s = Returns (e, s') →
  config s' = config s
  ∧ currentQuestion s' = currentQuestion s
  ∧ publishChannel s' = publishChannel s
  ∧ dom (players s') = dom (players s)
  ∧ (∀ k, k ≠ ID player → players s' !! k = players s !! k)
  ∧ (e ≠ None → s' = s).
Proof.
  intros Hk. unfold Session_SubmitAnswer, getPlayers.
  destruct (players s !! ID player) as [p|] eqn:Hp; [|by intros [= <- <-]].
  destruct (hasVoted p); [by intros [= <- <-]|].
  destruct (getCurrentQuestion s) as [q|]; [|done].
  intros [= <- <-]. pose proof (Hk _ _ Hp) as Hid.
  assert (Hkey : ID (with_hasVoted true
            (if a =? CorrectAnswer q then with_Score (int_inc (Score p)) p else p))
          = ID player) by (by destruct (a =? CorrectAnswer q)).
  unfold setPlayer. rewrite Hkey. simpl.
  split; [done|]. split; [done|]. split; [done|]. split; [|split; [|done]].
  - rewrite dom_insert_L. apply subseteq_union_1_L, singleton_subseteq_l.
    by apply elem_of_dom_2 in Hp.
  - intros k Hne. by rewrite lookup_insert_ne.
Qed.

Lemma SubmitAnswer_frame_witness :
  let s' := set_players (<["a1" := answered exampleQuestion 0 alice]>
                           (players aliceSession)) aliceSession in
  config s' = config aliceSession
  ∧ currentQuestion s' = currentQuestion aliceSession
  ∧ publishChannel s' = publishChannel aliceSession
  ∧ dom (players s') = dom (players aliceSession)
  ∧ (∀ k, k ≠ "a1" → players s' !! k = players aliceSession !! k)
  ∧ ((None : error) ≠ None → s' = aliceSession).
Proof.
  intros s'. apply (SubmitAnswer_frame aliceSession s' alice 0 None).
  - intros k p. unfold aliceSession. simpl. intros [<- <-]%lookup_singleton_Some. done.
  - reflexivity.
Defined.

(** X5. While no score is at the end of the range of [int],
    [SubmitAnswer] never lowers a score: every player keeps name and id,
    and the score is the same or one more. *)
Theorem SubmitAnswer_score_monotone (s s' : Session) (player : Player) (a : Z)
    (e : error) :
  players_keyed (players s) →
  scores_in_range (players s) →
  Session_SubmitAnswer player a s = Returns (e, s') →
  ∀ k p, players s !! k = Some p →
    ∃ p', players s' !! k = Some p'
          ∧ Name p' = Name p ∧ ID p' = ID p
          ∧ Score p ≤ Score p' ≤ Score p + 1.
Proof.
  intros Hk Hrange. unfold Session_SubmitAnswer, getPlayers.
  destruct (players s !! ID player) as [p0|] eqn:Hp0;
    [|intros [= <- <-] k p Hp; exists p; repeat split; (done || lia)].
  destruct (hasVoted p0);
    [intros [= <- <-] k p Hp; exists p; repeat split; (done || lia)|].
  destruct (getCurrentQuestion s) as [q|]; [|done].
  intros [= <- <-] k p Hp. pose proof (Hk _ _ Hp0) as Hid.
  pose proof (Hrange _ _ Hp0) as Hr.
  assert (Hkey : ID (with_hasVoted true
            (if a =? CorrectAnswer q then with_Score (int_inc (Score p0)) p0 else p0))
          = ID player) by (by destruct (a =? CorrectAnswer q)).
  unfold setPlayer. rewrite Hkey. simpl.
  destruct (decide (ID player = k)) as [<-|Hne].
  - rewrite lookup_insert_eq. eexists. split; [done|].
    rewrite Hp0 in Hp. injection Hp as <-.
    destruct (a =? CorrectAnswer q); simpl;
      rewrite ?int_inc_no_overflow by done; repeat split; (done || lia).
  - rewrite lookup_insert_ne by done. exists p. repeat split; (done || lia).
Qed.

Lemma SubmitAnswer_score_monotone_witness :
  let s' := set_players (<["a1" := answered exampleQuestion 1 alice]>
                           (players aliceSession)) aliceSession in
  ∃ p', players s' !! "a1" = Some p'
        ∧ Name p' = Name alice ∧ ID p' = ID alice
        ∧ Score alice ≤ Score p' ≤ Score alice + 1.
Proof.
  intros s'.
  apply (SubmitAnswer_score_monotone aliceSession s' alice 1 None) with (k := "a1").
  - intros k p. unfold aliceSession. simpl. intros [<- <-]%lookup_singleton_Some. done.
  - intros k p. unfold aliceSession. simpl. intros [<- <-]%lookup_singleton_Some.
    unfold int_min, int_max. simpl. lia.
  - reflexivity.
  - reflexivity.
Defined.

(** ** publishQuestion *)

(** X6. When the cursor points at a question, [publishQuestion] returns,
    clears the answered-flag of every player and keeps names, ids and
    scores; the cursor stays. After it every known player, also one who
    had answered before, can answer again. *)
Theorem publishQuestion_reopens_voting (s : Session) (q : Question) :
  players_keyed (players s) →
  getCurrentQuestion s = Some q →
  ∃ e s',
    publishQuestion s = Returns (e, s')
    ∧ players s' = with_hasVoted false <$> players s
    ∧ currentQuestion s' = currentQuestion s
    ∧ ∀ player p a, players s !! ID player = Some p →
        ∃ s'', Session_SubmitAnswer player a s' = Returns (None, s'').
Proof.
  intros Hk Hq.
  destruct (resetVotes_frame s) as (Hcfg & Hcur & Hch).
  unfold publishQuestion. rewrite getCurrentQuestion_resetVotes, Hq.
  destruct (Publish _ _ _) as [e c] eqn:Hpub.
  exists e, (set_channel c (resetVotes s)).
  split; [done|]. split; [by apply resetVotes_keyed|]. split; [done|].
  intros player p a Hp.
  unfold Session_SubmitAnswer, getPlayers. simpl.
  rewrite resetVotes_keyed, lookup_fmap, Hp by done. simpl.
  assert (Hq' : getCurrentQuestion (set_channel c (resetVotes s)) = Some q).
  { rewrite <-Hq. unfold getCurrentQuestion, getQuestions. simpl.
    by rewrite Hcfg, Hcur. }
  rewrite Hq'. eauto.
Qed.

Lemma publishQuestion_reopens_voting_witness :
  ∃ e s',
    publishQuestion aliceVotedSession = Returns (e, s')
    ∧ players s' = with_hasVoted false <$> players aliceVotedSession
    ∧ currentQuestion s' = currentQuestion aliceVotedSession
    ∧ ∀ player p a, players aliceVotedSession !! ID player = Some p →
        ∃ s'', Session_SubmitAnswer player a s' = Returns (None, s'').
Proof.
  apply (publishQuestion_reopens_voting aliceVotedSession exampleQuestion).
  - intros k p. unfold aliceVotedSession. simpl.
    intros [<- <-]%lookup_singleton_Some. done.
  - reflexivity.
Defined.

(** ** publishScoreBoard *)

Lemma scoreBoard_fold_Some (l : list Player) (acc : gmap string Z) (name : string) (z : Z) :
  foldl (λ board player, <[Name player := Score player]> board) acc l !! name = Some z →
  acc !! name = Some z ∨ ∃ p, p ∈ l ∧ Name p = name ∧ Score p = z.
Proof.
  revert acc. induction l as [|p l IH]; intros acc; simpl; [by left|].
  intros [Hacc|(p' & Hin & Hp')]%IH.
  - destruct (decide (Name p = name)) as [Heq|Hne].
    + rewrite Heq, lookup_insert_eq in Hacc. injection Hacc as <-.
      right. exists p. split; [left|done].
    + rewrite lookup_insert_ne in Hacc by done. by left.
  - right. exists p'. split; [by right|done].
Qed.

Lemma scoreBoard_fold_is_Some (l : list Player) (acc : gmap string Z) (name : string) :
  is_Some (acc !! name) ∨ (∃ p, p ∈ l ∧ Name p = name) →
  is_Some (foldl (λ board player, <[Name player := Score player]> board) acc l !! name).
Proof.
  revert acc. induction l as [|p l IH]; intros acc; simpl.
  - intros [H|(p & Hin & _)]; [done|]. by apply not_elem_of_nil in Hin.
  - intros H. apply IH.
    destruct (decide (Name p = name)) as [<-|Hne].
    + left. rewrite lookup_insert_eq. eauto.
    + destruct H as [H|(p' & Hin & Hp')].
      * left. by rewrite lookup_insert_ne.
      * apply elem_of_cons in Hin as [->|Hin]; [done|]. right. eauto.
Qed.

Lemma elem_of_players (ps : gmap string Player) (p : Player) :
  p ∈ (map_to_list ps).*2 ↔ ∃ k, ps !! k = Some p.
Proof.
  rewrite list_elem_of_fmap. split.
  - intros ([k p'] & -> & Hin%elem_of_map_to_list). eauto.
  - intros (k & Hk). exists (k, p). split; [done|]. by apply elem_of_map_to_list.
Qed.

(** X7. [publishScoreBoard] hands the channel one [quiz-update] event
    and goes on whatever the result; the session keeps its players and
    its cursor. Every entry of the board is the score of a player of
    that name and every player's name has an entry; when no two players
    share a name, each name carries the score of its player. *)
Theorem publishScoreBoard_board (s : Session) :
  let s' := publishScoreBoard s in
  ∃ board,
    calls (publishChannel s')
    = calls (publishChannel s)
      ++ [{| call_name := "quiz-update"; call_data := JSONScoreBoard board;
             call_result := hd None (script (publishChannel s)) |}]
    ∧ players s' = players s
    ∧ currentQuestion s' = currentQuestion s
    ∧ (∀ name z, board !! name = Some z →
         ∃ k p, players s !! k = Some p ∧ Name p = name ∧ Score p = z)
    ∧ (∀ k p, players s !! k = Some p → is_Some (board !! Name p))
    ∧ (names_distinct (players s) →
       ∀ k p, players s !! k = Some p → board !! Name p = Some (Score p)).
Proof.
  intros s'. exists (scoreBoard (getPlayers s)).
  assert (Hsome : ∀ name z, scoreBoard (getPlayers s) !! name = Some z →
            ∃ k p, players s !! k = Some p ∧ Name p = name ∧ Score p = z).
  { intros name z [Hemp|(p & Hin & Hn & Hz)]%scoreBoard_fold_Some.
    - by rewrite lookup_empty in Hemp.
    - apply elem_of_players in Hin as [k Hk]. eauto. }
  assert (Hall : ∀ k p, players s !! k = Some p →
            is_Some (scoreBoard (getPlayers s) !! Name p)).
  { intros k p Hp. apply scoreBoard_fold_is_Some. right. exists p.
    split; [|done]. apply elem_of_players. eauto. }
  split; [done|]. split; [done|]. split; [done|]. split; [done|]. split; [done|].
  intros Hdistinct k p Hp.
  destruct (Hall k p Hp) as [z Hz]. rewrite Hz.
  destruct (Hsome _ _ Hz) as (k' & p' & Hp' & Hname & <-).
  assert (k' = k) as -> by (by eapply Hdistinct).
  rewrite Hp in Hp'. by injection Hp' as <-.
Qed.

(** * Further properties of the progression task *)

Lemma answerOf_tl (sc : list error) (i : nat) :
  answerOf (tl sc) i = answerOf sc (S i).
Proof. unfold answerOf. by destruct sc; [destruct i|]. Qed.

Lemma getCurrentQuestion_drop (s : Session) (q : Question) (rest : list Question) :
  0 ≤ currentQuestion s →
  drop (Z.to_nat (currentQuestion s)) (getQuestions s) = q :: rest →
  getCurrentQuestion s = Some q.
Proof.
  intros Hpos Hdrop.
  assert (Hq : getQuestions s !! Z.to_nat (currentQuestion s) = Some q).
  { rewrite <-(Nat.add_0_r (Z.to_nat (currentQuestion s))), <-lookup_drop, Hdrop. done. }
  unfold getCurrentQuestion. rewrite Hq.
  apply lookup_lt_Some in Hq.
  destruct (Z.leb_spec 0 (currentQuestion s)); [|lia].
  destruct (Z.ltb_spec (currentQuestion s) (len (length (getQuestions s))));
    [done|unfold len in *; lia].
Qed.

Lemma published_frame (q : Question) (s : Session) :
  config (published q s) = config s
  ∧ currentQuestion (published q s) = currentQuestion s
  ∧ SessionID (published q s) = SessionID s
  ∧ cancelled (published q s) = cancelled s
  ∧ script (publishChannel (published q s)) = tl (script (publishChannel s))
  ∧ calls (publishChannel (published q s))
    = calls (publishChannel s) ++ [questionCall (answerOf (script (publishChannel s)) 0) q].
Proof.
  pose proof (resetVotes_fold (map_to_list (getPlayers s)).*2 s) as Hfold.
  fold (resetVotes s) in Hfold. cbv zeta in Hfold.
  destruct Hfold as (Hcfg & Hcur & Hch & Hid & Hcan).
  unfold published, set_channel, Publish, answerOf.
  cbn [config currentQuestion SessionID cancelled publishChannel script calls snd].
  rewrite Hcfg, Hcur, Hid, Hcan. done.
Qed.

Lemma publishQuestion_published (s : Session) (q : Question) :
  getCurrentQuestion s = Some q →
  publishQuestion s
  = Returns (answerOf (script (publishChannel s)) 0, published q s).
Proof.
  intros Hq. destruct (resetVotes_frame s) as (_ & _ & Hch).
  unfold publishQuestion. rewrite getCurrentQuestion_resetVotes, Hq.
  unfold published, Publish, answerOf. simpl. by rewrite Hch.
Qed.

Section TaskRuns.

Variable generateUniqueID : nat → string.
Variable choose : gmap string loc → nat.

Local Abbreviation handle := (handleCommand generateUniqueID choose).
Local Abbreviation endS := (endSession generateUniqueID choose).
Local Abbreviation loop := (questionLoop generateUniqueID choose).
Local Abbreviation run := (runQuiz generateUniqueID choose).
Local Abbreviation start := (startQuiz generateUniqueID choose).

Lemma questionLoop_break (fuel : nat) (l : loc) (w : World) (s : Session) :
  store w !! l = Some s →
  len (length (getQuestions s)) ≤ currentQuestion s →
  loop (S fuel) l w = Done true w.
Proof.
  intros Hs Hend. simpl. erewrite bind_Done; [|by eapply getSession_Done].
  unfold getCurrentQuestionCounter.
  destruct (Z.geb_spec (currentQuestion s) (len (length (getQuestions s)))); [done|lia].
Qed.

Lemma questionLoop_step (fuel : nat) (l : loc) (w : World) (s : Session) (q : Question) :
  store w !! l = Some s →
  getCurrentQuestion s = Some q →
  loop (S fuel) l w
  = match answerOf (script (publishChannel s)) 0 with
    | None => loop fuel l (set_store (<[l := asked q s]> (store w)) w)
    | Some _ =>
        Done false {| manager := removed (SessionID s) (manager w);
                      store := <[l := ended (published q s)]> (store w);
                      started := started w;
                      idsGenerated := idsGenerated w |}
    end.
Proof.
  intros Hs Hq.
  assert (Hin : currentQuestion s < len (length (getQuestions s))).
  { unfold getCurrentQuestion in Hq.
    destruct (Z.ltb_spec (currentQuestion s) (len (length (getQuestions s)))); [done|].
    by rewrite andb_false_r in Hq. }
  simpl. erewrite bind_Done; [|by eapply getSession_Done].
  unfold getCurrentQuestionCounter.
  destruct (Z.geb_spec (currentQuestion s) (len (length (getQuestions s)))); [lia|].
  erewrite bind_Done;
    [|eapply onSession_Done; [done|by apply publishQuestion_published]].
  destruct (answerOf (script (publishChannel s)) 0) as [e|].
  - erewrite bind_Done; [|eapply endSession_Done, store_written, Hs].
    destruct (published_frame q s) as (_ & _ & -> & _).
    unfold ret. simpl. by rewrite list_insert_insert_eq.
  - erewrite bind_Done; [|eapply updSession_Done, store_written, Hs].
    simpl. by rewrite list_insert_insert_eq.
Qed.

Lemma asked_frame (q : Question) (s : Session) :
  0 ≤ currentQuestion s < int_max →
  config (asked q s) = config s
  ∧ currentQuestion (asked q s) = currentQuestion s + 1
  ∧ SessionID (asked q s) = SessionID s
  ∧ cancelled (asked q s) = cancelled s
  ∧ script (publishChannel (asked q s)) = tl (script (publishChannel s))
  ∧ calls (publishChannel (asked q s))
    = calls (publishChannel s) ++ [questionCall (answerOf (script (publishChannel s)) 0) q].
Proof.
  intros Hc. destruct (published_frame q s) as (Hcfg & Hcur & Hid & Hcan & Hsc & Hcalls).
  unfold asked, moveToNextQuestion.
  cbn [config currentQuestion SessionID cancelled publishChannel].
  rewrite Hcur, int_inc_no_overflow by (unfold int_min in *; lia). done.
Qed.

Lemma world_written_id (l : loc) (w : World) (s : Session) :
  store w !! l = Some s → set_store (<[l := s]> (store w)) w = w.
Proof. intros Hs. rewrite list_insert_id by done. by destruct w. Qed.

Lemma fmap_reset_keyed (ps : gmap string Player) :
  players_keyed ps → players_keyed (with_hasVoted false <$> ps).
Proof.
  intros Hk k p. rewrite lookup_fmap.
  destruct (ps !! k) as [p0|] eqn:Hp0; [|done]. intros [= <-]. simpl. by eapply Hk.
Qed.

Lemma fmap_reset_twice (ps : gmap string Player) :
  with_hasVoted false <$> (with_hasVoted false <$> ps) = with_hasVoted false <$> ps.
Proof. rewrite <-map_fmap_compose. apply map_fmap_ext. by intros k [? ? ? ?] _. Qed.

(** The loop on a channel that accepts the questions still to ask. *)
Lemma questionLoop_run (l : loc) (rem : list Question) :
  ∀ (fuel : nat) (w : World) (s : Session),
    store w !! l = Some s →
    0 ≤ currentQuestion s →
    len (length (getQuestions s)) ≤ int_max →
    drop (Z.to_nat (currentQuestion s)) (getQuestions s) = rem →
    (length rem < fuel)%nat →
    (∀ i, (i < length rem)%nat → answerOf (script (publishChannel s)) i = None) →
    ∃ s', loop fuel l w = Done true (set_store (<[l := s']> (store w)) w)
          ∧ config s' = config s
          ∧ SessionID s' = SessionID s
          ∧ cancelled s' = cancelled s
          ∧ currentQuestion s' = currentQuestion s + len (length rem)
          ∧ script (publishChannel s') = drop (length rem) (script (publishChannel s))
          ∧ calls (publishChannel s')
            = calls (publishChannel s) ++ (questionCall None <$> rem)
          ∧ (players_keyed (players s) →
             players s' = match rem with
                          | [] => players s
                          | _ => with_hasVoted false <$> players s
                          end).
Proof.
  induction rem as [|q rem IH]; intros fuel w s Hs Hpos Hmax Hdrop Hfuel Hok.
  - destruct fuel as [|fuel]; [simpl in Hfuel; lia|].
    exists s. rewrite (world_written_id l w s) by done.
    split.
    { apply (questionLoop_break fuel l w s); [done|].
      apply (f_equal length) in Hdrop. rewrite length_drop in Hdrop. simpl in Hdrop.
      unfold len. lia. }
    simpl. unfold len. simpl. rewrite Z.add_0_r, app_nil_r. done.
  - destruct fuel as [|fuel]; [simpl in Hfuel; lia|].
    pose proof (getCurrentQuestion_drop s q rem Hpos Hdrop) as Hq.
    assert (Hlt : currentQuestion s < int_max).
    { apply (f_equal length) in Hdrop. rewrite length_drop in Hdrop. simpl in Hdrop.
      unfold len in *. lia. }
    destruct (asked_frame q s) as (Hcfg & Hcur & Hid & Hcan & Hsc & Hcalls); [lia|].
    rewrite (questionLoop_step fuel l w s q Hs Hq).
    rewrite (Hok 0%nat) by (simpl; lia).
    rewrite (Hok 0%nat) in Hcalls by (simpl; lia).
    destruct (IH fuel (set_store (<[l := asked q s]> (store w)) w) (asked q s))
      as (s' & Hrun & Hcfg' & Hid' & Hcan' & Hcur' & Hsc' & Hcalls' & Hpl').
    + eapply store_written, Hs.
    + lia.
    + unfold getQuestions in *. by rewrite Hcfg.
    + unfold getQuestions in *. rewrite Hcfg, Hcur.
      replace (Z.to_nat (currentQuestion s + 1))
        with (Z.to_nat (currentQuestion s) + 1)%nat by lia.
      by rewrite <-drop_drop, Hdrop.
    + simpl in Hfuel. lia.
    + intros i Hi. rewrite Hsc, answerOf_tl. apply Hok. simpl. lia.
    + exists s'. split.
      { rewrite Hrun. simpl. by rewrite list_insert_insert_eq. }
      rewrite Hcfg', Hid', Hcan', Hcur', Hsc', Hcalls', Hcfg, Hid, Hcan, Hcur, Hsc, Hcalls.
      split; [done|]. split; [done|]. split; [done|].
      split; [simpl; unfold len; lia|].
      split; [destruct (script (publishChannel s)); simpl; [by destruct (length rem)|done]|].
      split; [by rewrite <-app_assoc|].
      intros Hk.
      assert (Hpl : players (asked q s) = with_hasVoted false <$> players s)
        by (by apply resetVotes_keyed).
      rewrite Hpl'; [|rewrite Hpl; by apply fmap_reset_keyed].
      rewrite Hpl. destruct rem; [done|]. apply fmap_reset_twice.
Qed.

(** The loop on a channel that refuses a question after accepting the
    questions [pre]. *)
Lemma questionLoop_abort (l : loc) (pre : list Question) :
  ∀ (fuel : nat) (w : World) (s : Session) (q : Question) (rest : list Question)
    (e : string),
    store w !! l = Some s →
    0 ≤ currentQuestion s →
    len (length (getQuestions s)) ≤ int_max →
    drop (Z.to_nat (currentQuestion s)) (getQuestions s) = pre ++ q :: rest →
    (length pre < fuel)%nat →
    (∀ i, (i < length pre)%nat → answerOf (script (publishChannel s)) i = None) →
    answerOf (script (publishChannel s)) (length pre) = Some e →
    ∃ s', loop fuel l w
          = Done false {| manager := removed (SessionID s) (manager w);
                          store := <[l := s']> (store w);
                          started := started w;
                          idsGenerated := idsGenerated w |}
          ∧ config s' = config s
          ∧ cancelled s' = true
          ∧ currentQuestion s' = currentQuestion s + len (length pre)
          ∧ calls (publishChannel s')
            = calls (publishChannel s) ++ (questionCall None <$> pre)
              ++ [questionCall (Some e) q;
                  endCall (answerOf (script (publishChannel s)) (S (length pre)))].
Proof.
  induction pre as [|q0 pre IH]; intros fuel w s q rest e Hs Hpos Hmax Hdrop Hfuel Hok He.
  - destruct fuel as [|fuel]; [simpl in Hfuel; lia|].
    pose proof (getCurrentQuestion_drop s q rest Hpos Hdrop) as Hq.
    destruct (published_frame q s) as (Hcfg & Hcur & Hid & Hcan & Hsc & Hcalls).
    rewrite (questionLoop_step fuel l w s q Hs Hq). simpl in He. rewrite He.
    exists (ended (published q s)). split; [done|].
    unfold ended, cancel, set_channel, Publish.
    cbn [config currentQuestion cancelled publishChannel calls snd].
    rewrite Hcfg, Hcur, Hcalls, Hsc, He. simpl.
    split; [done|]. split; [done|]. split; [unfold len; simpl; lia|].
    rewrite <-app_assoc. simpl. unfold endCall, answerOf.
    by destruct (script (publishChannel s)).
  - destruct fuel as [|fuel]; [simpl in Hfuel; lia|].
    simpl in Hdrop.
    pose proof (getCurrentQuestion_drop s q0 _ Hpos Hdrop) as Hq.
    assert (Hlt : currentQuestion s < int_max).
    { apply (f_equal length) in Hdrop. rewrite length_drop in Hdrop. simpl in Hdrop.
      unfold len in *. lia. }
    destruct (asked_frame q0 s) as (Hcfg & Hcur & Hid & Hcan & Hsc & Hcalls); [lia|].
    rewrite (questionLoop_step fuel l w s q0 Hs Hq).
    rewrite (Hok 0%nat) by (simpl; lia).
    rewrite (Hok 0%nat) in Hcalls by (simpl; lia).
    destruct (IH fuel (set_store (<[l := asked q0 s]> (store w)) w) (asked q0 s) q rest e)
      as (s' & Hrun & Hcfg' & Hcan' & Hcur' & Hcalls').
    + eapply store_written, Hs.
    + lia.
    + unfold getQuestions in *. by rewrite Hcfg.
    + unfold getQuestions in *. rewrite Hcfg, Hcur.
      replace (Z.to_nat (currentQuestion s + 1))
        with (Z.to_nat (currentQuestion s) + 1)%nat by lia.
      by rewrite <-drop_drop, Hdrop.
    + simpl in Hfuel. lia.
    + intros i Hi. rewrite Hsc, answerOf_tl. apply Hok. simpl. lia.
    + by rewrite Hsc, answerOf_tl.
    + exists s'. split.
      { rewrite Hrun, Hid. simpl. by rewrite list_insert_insert_eq. }
      rewrite Hcfg', Hcan', Hcur', Hcalls', Hcfg, Hcur, Hcalls, Hsc, answerOf_tl.
      split; [done|]. split; [done|]. split; [simpl; unfold len; lia|].
      simpl. by rewrite <-app_assoc.
Qed.

(** The loop never panics and ends, whatever the channel answers. *)
Lemma questionLoop_total (l : loc) (rem : list Question) :
  ∀ (fuel : nat) (w : World) (s : Session),
    store w !! l = Some s →
    0 ≤ currentQuestion s →
    len (length (getQuestions s)) ≤ int_max →
    drop (Z.to_nat (currentQuestion s)) (getQuestions s) = rem →
    (length rem < fuel)%nat →
    ∃ b w' s', loop fuel l w = Done b w' ∧ store w' !! l = Some s'.
Proof.
  induction rem as [|q rem IH]; intros fuel w s Hs Hpos Hmax Hdrop Hfuel.
  - destruct fuel as [|fuel]; [simpl in Hfuel; lia|].
    exists true, w, s. split; [|done].
    apply (questionLoop_break fuel l w s); [done|].
    apply (f_equal length) in Hdrop. rewrite length_drop in Hdrop. simpl in Hdrop.
    unfold len. lia.
  - destruct fuel as [|fuel]; [simpl in Hfuel; lia|].
    pose proof (getCurrentQuestion_drop s q rem Hpos Hdrop) as Hq.
    rewrite (questionLoop_step fuel l w s q Hs Hq).
    destruct (answerOf (script (publishChannel s)) 0) as [e|].
    + eexists _, _, _. split; [done|]. simpl.
      apply list_lookup_insert_eq. by eapply lookup_lt_Some.
    + assert (Hlt : currentQuestion s < int_max).
      { apply (f_equal length) in Hdrop. rewrite length_drop in Hdrop. simpl in Hdrop.
        unfold len in *. lia. }
      destruct (asked_frame q s) as (Hcfg & Hcur & _); [lia|].
      destruct (IH fuel (set_store (<[l := asked q s]> (store w)) w) (asked q s))
        as (b & w' & s' & Hrun & Hs').
      * eapply store_written, Hs.
      * lia.
      * unfold getQuestions in *. by rewrite Hcfg.
      * unfold getQuestions in *. rewrite Hcfg, Hcur.
        replace (Z.to_nat (currentQuestion s + 1))
          with (Z.to_nat (currentQuestion s) + 1)%nat by lia.
        by rewrite <-drop_drop, Hdrop.
      * simpl in Hfuel. lia.
      * eauto.
Qed.

Lemma answerOf_drop (sc : list error) (n i : nat) :
  answerOf (drop n sc) i = answerOf sc (n + i).
Proof. unfold answerOf. by rewrite drop_drop. Qed.

Lemma hd_answerOf (sc : list error) : hd None sc = answerOf sc 0.
Proof. done. Qed.

Lemma publish_Done (l : loc) (name : string) (data : payload) (w : World) (s : Session) :
  store w !! l = Some s →
  publish l name data w
  = Done (answerOf (script (publishChannel s)) 0)
         (set_store (<[l := sent name data s]> (store w)) w).
Proof. intros Hs. unfold publish. by erewrite onSession_Done. Qed.

Lemma Move_accepted (w : World) (id : string) (l : loc) :
  waitingRooms (manager w) !! id = Some l →
  handle (sessionCommand MoveSessionToInProgress id) w
  = Done (succeeded "") (set_manager (moved id l (manager w)) w).
Proof.
  intros Hw. unfold handleCommand, bind, getManager. simpl. rewrite Hw. reflexivity.
Qed.

(** X8. On a channel that accepts every publish, [startQuiz] for a
    waiting session at its first question moves the session to in
    progress, publishes the notice, every question of the bank once and
    in order, the score board and the end-of-quiz event, and has the
    session removed: the session is in neither partition, its cursor is
    past the last question and it is cancelled. *)
Theorem startQuiz_runs_the_quiz (fuel : nat) (l l' : loc) (w : World) (s : Session) :
  store w !! l = Some s →
  waitingRooms (manager w) !! SessionID s = Some l' →
  currentQuestion s = 0 →
  len (length (getQuestions s)) ≤ int_max →
  (length (getQuestions s) < fuel)%nat →
  (∀ i, answerOf (script (publishChannel s)) i = None) →
  ∃ s',
    start fuel l w
    = Done tt {| manager := removed (SessionID s) (moved (SessionID s) l' (manager w));
                 store := <[l := s']> (store w);
                 started := started w;
                 idsGenerated := idsGenerated w |}
    ∧ calls (publishChannel s')
      = calls (publishChannel s) ++ [noticeCall None]
        ++ (questionCall None <$> getQuestions s)
        ++ [boardCall (players s') None; endCall None]
    ∧ currentQuestion s' = len (length (getQuestions s))
    ∧ cancelled s' = true
    ∧ waitingRooms (removed (SessionID s) (moved (SessionID s) l' (manager w)))
        !! SessionID s = None
    ∧ inProgress (removed (SessionID s) (moved (SessionID s) l' (manager w)))
        !! SessionID s = None.
Proof.
  intros Hs Hw Hcur Hmax Hfuel Hok.
  set (s1 := sent "quiz-update" (Text "Quiz starting in 3 seconds") s).
  set (w1 := set_manager (moved (SessionID s) l' (manager w)) w).
  set (w2 := set_store (<[l := s1]> (store w1)) w1).
  assert (Hs1 : store w2 !! l = Some s1) by (eapply (store_written l w1), Hs).
  destruct (questionLoop_run l (getQuestions s) fuel w2 s1 Hs1)
    as (s2 & Hloop & Hcfg2 & Hid2 & Hcan2 & Hcur2 & Hsc2 & Hcalls2 & _).
  { simpl. lia. }
  { done. }
  { simpl. by rewrite Hcur. }
  { done. }
  { intros i _. simpl. rewrite answerOf_tl. apply Hok. }
  set (w3 := set_store (<[l := s2]> (store w2)) w2) in Hloop.
  assert (Hs2 : store w3 !! l = Some s2) by (eapply (store_written l w2), Hs1).
  set (s3 := publishScoreBoard s2).
  set (w4 := set_store (<[l := s3]> (store w3)) w3).
  assert (Hs3 : store w4 !! l = Some s3) by (eapply (store_written l w3), Hs2).
  exists (ended s3). split; [|split; [|split; [|split; [|split]]]].
  - unfold startQuiz. erewrite bind_Done; [|by eapply getSession_Done].
    erewrite bind_Done; [|by apply Move_accepted]. simpl.
    unfold runQuiz. erewrite bind_Done; [|by apply (publish_Done l _ _ w1 s)].
    rewrite (Hok 0%nat). erewrite bind_Done; [|reflexivity].
    fold s1. fold w2. erewrite bind_Done; [|exact Hloop]. cbv beta iota.
    erewrite bind_Done; [|by apply (updSession_Done l _ w3 s2)].
    fold s3. fold w4. rewrite (endSession_Done _ _ l w4 s3 Hs3).
    f_equal. unfold w4, w3, w2, w1, s3, publishScoreBoard. simpl.
    rewrite !list_insert_insert_eq. by rewrite Hid2.
  - unfold ended, cancel, set_channel, Publish, s3, publishScoreBoard, Publish.
    cbn [publishChannel calls snd script].
    rewrite Hcalls2, Hsc2. simpl.
    rewrite !hd_answerOf, !answerOf_tl, !answerOf_drop, !Hok.
    rewrite <-!app_assoc. simpl. rewrite !answerOf_tl, !Hok. done.
  - unfold ended, cancel, s3, publishScoreBoard, set_channel, Publish.
    cbn [currentQuestion]. rewrite Hcur2. simpl. rewrite Hcur. lia.
  - done.
  - simpl. apply lookup_delete_eq.
  - simpl. apply lookup_delete_eq.
Qed.

(** X9. When the channel accepts the notice and the questions [pre] and
    refuses the next question [q], [startQuiz] publishes nothing after
    [q] but the end-of-quiz event: no later question and no score board.
    The session is removed and cancelled with its cursor still on [q]. *)
Theorem startQuiz_stops_at_failed_question (fuel : nat) (l l' : loc) (w : World)
    (s : Session) (pre : list Question) (q : Question) (rest : list Question)
    (e : string) :
  store w !! l = Some s →
  waitingRooms (manager w) !! SessionID s = Some l' →
  currentQuestion s = 0 →
  len (length (getQuestions s)) ≤ int_max →
  getQuestions s = pre ++ q :: rest →
  (length pre < fuel)%nat →
  (∀ i, (i ≤ length pre)%nat → answerOf (script (publishChannel s)) i = None) →
  answerOf (script (publishChannel s)) (S (length pre)) = Some e →
  ∃ s',
    start fuel l w
    = Done tt {| manager := removed (SessionID s) (moved (SessionID s) l' (manager w));
                 store := <[l := s']> (store w);
                 started := started w;
                 idsGenerated := idsGenerated w |}
    ∧ calls (publishChannel s')
      = calls (publishChannel s) ++ [noticeCall None]
        ++ (questionCall None <$> pre)
        ++ [questionCall (Some e) q;
            endCall (answerOf (script (publishChannel s)) (S (S (length pre))))]
    ∧ currentQuestion s' = len (length pre)
    ∧ cancelled s' = true.
Proof.
  intros Hs Hw Hcur Hmax Hqs Hfuel Hok He.
  set (s1 := sent "quiz-update" (Text "Quiz starting in 3 seconds") s).
  set (w1 := set_manager (moved (SessionID s) l' (manager w)) w).
  set (w2 := set_store (<[l := s1]> (store w1)) w1).
  assert (Hs1 : store w2 !! l = Some s1) by (eapply (store_written l w1), Hs).
  destruct (questionLoop_abort l pre fuel w2 s1 q rest e Hs1)
    as (s2 & Hloop & Hcfg2 & Hcan2 & Hcur2 & Hcalls2).
  { simpl. lia. }
  { done. }
  { simpl. by rewrite Hcur. }
  { done. }
  { intros i Hi. simpl. rewrite answerOf_tl. apply Hok. lia. }
  { simpl. by rewrite answerOf_tl. }
  exists s2. split; [|split; [|split]].
  - unfold startQuiz. erewrite bind_Done; [|by eapply getSession_Done].
    erewrite bind_Done; [|by apply Move_accepted]. simpl.
    unfold runQuiz. erewrite bind_Done; [|by apply (publish_Done l _ _ w1 s)].
    rewrite (Hok 0%nat) by lia. erewrite bind_Done; [|reflexivity].
    fold s1. fold w2. erewrite bind_Done; [|exact Hloop]. cbv beta iota.
    unfold ret. f_equal. unfold w2, w1. simpl.
    by rewrite list_insert_insert_eq.
  - rewrite Hcalls2. simpl. rewrite hd_answerOf, !answerOf_tl, (Hok 0%nat) by lia.
    rewrite <-!app_assoc. done.
  - rewrite Hcur2. simpl. rewrite Hcur. lia.
  - done.
Qed.

(** The part of [startQuiz] from the loop on: whatever the channel
    answers it ends, the session is cancelled and one [EndSession] was
    handled for it. *)
Lemma questionLoop_then_end (fuel : nat) (l : loc) (w : World) (s : Session) :
  store w !! l = Some s →
  0 ≤ currentQuestion s →
  len (length (getQuestions s)) ≤ int_max →
  (length (getQuestions s) < fuel)%nat →
  ∃ s',
    (finished <~ loop fuel l ;;
     if finished : bool then updSession l publishScoreBoard ;;; endS l else ret tt) w
    = Done tt {| manager := removed (SessionID s) (manager w);
                 store := <[l := s']> (store w);
                 started := started w;
                 idsGenerated := idsGenerated w |}
    ∧ cancelled s' = true.
Proof.
  intros Hs Hpos Hmax Hfuel.
  assert (Hgen : ∀ (rem : list Question) (fuel : nat) (w : World) (s : Session),
    store w !! l = Some s →
    0 ≤ currentQuestion s →
    len (length (getQuestions s)) ≤ int_max →
    drop (Z.to_nat (currentQuestion s)) (getQuestions s) = rem →
    (length rem < fuel)%nat →
    ∃ (b : bool) s', loop fuel l w
            = Done b (if b then set_store (<[l := s']> (store w)) w
                      else {| manager := removed (SessionID s) (manager w);
                              store := <[l := s']> (store w);
                              started := started w;
                              idsGenerated := idsGenerated w |})
            ∧ SessionID s' = SessionID s
            ∧ (b = false → cancelled s' = true)).
  { clear. induction rem as [|q rem IH]; intros fuel w s Hs Hpos Hmax Hdrop Hfuel.
    - destruct fuel as [|fuel]; [simpl in Hfuel; lia|].
      exists true, s. rewrite (world_written_id l w s) by done.
      split; [|done].
      apply (questionLoop_break fuel l w s); [done|].
      apply (f_equal length) in Hdrop. rewrite length_drop in Hdrop. simpl in Hdrop.
      unfold len. lia.
    - destruct fuel as [|fuel]; [simpl in Hfuel; lia|].
      pose proof (getCurrentQuestion_drop s q rem Hpos Hdrop) as Hq.
      rewrite (questionLoop_step fuel l w s q Hs Hq).
      destruct (answerOf (script (publishChannel s)) 0) as [e|].
      + exists false, (ended (published q s)). split; [done|].
        destruct (published_frame q s) as (_ & _ & Hid & _). done.
      + assert (Hlt : currentQuestion s < int_max).
        { apply (f_equal length) in Hdrop. rewrite length_drop in Hdrop.
          simpl in Hdrop. unfold len in *. lia. }
        destruct (asked_frame q s) as (Hcfg & Hcur & Hid & _); [lia|].
        destruct (IH fuel (set_store (<[l := asked q s]> (store w)) w) (asked q s))
          as (b & s' & Hrun & Hid' & Hcan').
        * eapply store_written, Hs.
        * lia.
        * unfold getQuestions in *. by rewrite Hcfg.
        * unfold getQuestions in *. rewrite Hcfg, Hcur.
          replace (Z.to_nat (currentQuestion s + 1))
            with (Z.to_nat (currentQuestion s) + 1)%nat by lia.
          by rewrite <-drop_drop, Hdrop.
        * simpl in Hfuel. lia.
        * exists b, s'. split; [|split; [congruence|done]].
          rewrite Hrun, Hid. destruct b; simpl; by rewrite list_insert_insert_eq. }
  destruct (Hgen (drop (Z.to_nat (currentQuestion s)) (getQuestions s)) fuel w s)
    as (b & s' & Hrun & Hid & Hcan); [done..| |].
  { rewrite length_drop. lia. }
  destruct b.
  - set (w1 := set_store (<[l := s']> (store w)) w) in Hrun.
    assert (Hs' : store w1 !! l = Some s') by (eapply (store_written l w), Hs).
    set (s2 := publishScoreBoard s').
    set (w2 := set_store (<[l := s2]> (store w1)) w1).
    assert (Hs2 : store w2 !! l = Some s2) by (eapply (store_written l w1), Hs').
    exists (ended s2). split; [|done].
    erewrite bind_Done; [|exact Hrun]. cbv beta iota.
    erewrite bind_Done; [|by apply (updSession_Done l _ w1 s')].
    fold s2. fold w2. rewrite (endSession_Done _ _ l w2 s2 Hs2).
    f_equal. unfold w2, w1, s2, publishScoreBoard. simpl.
    rewrite !list_insert_insert_eq. by rewrite Hid.
  - exists s'. split; [|by apply Hcan].
    erewrite bind_Done; [|exact Hrun]. done.
Qed.

(** X10. [startQuiz] on a live session always returns: it never panics,
    whatever the registry and the channel answer, and when it returns the
    session is cancelled and in neither partition of the registry. *)
Theorem startQuiz_always_ends_the_session (fuel : nat) (l : loc) (w : World)
    (s : Session) :
  store w !! l = Some s →
  0 ≤ currentQuestion s →
  len (length (getQuestions s)) ≤ int_max →
  (length (getQuestions s) < fuel)%nat →
  ∃ w' s',
    start fuel l w = Done tt w'
    ∧ store w' !! l = Some s'
    ∧ cancelled s' = true
    ∧ waitingRooms (manager w') !! SessionID s = None
    ∧ inProgress (manager w') !! SessionID s = None.
Proof.
  intros Hs Hpos Hmax Hfuel.
  assert (Hlen : (l < length (store w))%nat) by (by eapply lookup_lt_Some).
  unfold startQuiz. erewrite bind_Done; [|by eapply getSession_Done].
  destruct (waitingRooms (manager w) !! SessionID s) as [l'|] eqn:Hw.
  - erewrite bind_Done; [|by apply Move_accepted]. cbn [Error succeeded].
    set (w1 := set_manager (moved (SessionID s) l' (manager w)) w).
    set (s1 := sent "quiz-update" (Text "Quiz starting in 3 seconds") s).
    set (w2 := set_store (<[l := s1]> (store w1)) w1).
    assert (Hs1 : store w2 !! l = Some s1) by (eapply (store_written l w1), Hs).
    unfold runQuiz. erewrite bind_Done; [|by apply (publish_Done l _ _ w1 s)].
    fold s1. fold w2.
    destruct (answerOf (script (publishChannel s)) 0) as [e|].
    + erewrite bind_Done; [|by apply (endSession_Done _ _ l w2 s1)].
      match goal with
      | |- context [bind _ _ ?w] => set (w3 := w)
      end.
      assert (Hs3 : store w3 !! l = Some (ended s1)).
      { unfold w3. simpl. apply list_lookup_insert_eq.
        rewrite length_insert. done. }
      destruct (questionLoop_then_end fuel l w3 (ended s1) Hs3) as (s' & Hrun & Hcan);
        [done..|].
      eexists _, s'. split; [exact Hrun|]. simpl.
      split; [apply list_lookup_insert_eq; by rewrite !length_insert|].
      split; [done|]. split; apply lookup_delete_eq.
    + erewrite bind_Done; [|reflexivity].
      destruct (questionLoop_then_end fuel l w2 s1 Hs1) as (s' & Hrun & Hcan);
        [done..|].
      eexists _, s'. split; [exact Hrun|]. simpl.
      split; [apply list_lookup_insert_eq; by rewrite !length_insert|].
      split; [done|]. split; apply lookup_delete_eq.
  - erewrite bind_Done; [|by apply Move_refused]. cbn [Error failed].
    rewrite (endSession_Done _ _ l w s Hs).
    eexists _, (ended s). split; [done|]. simpl.
    split; [by apply list_lookup_insert_eq|].
    split; [done|]. split; [done|apply lookup_delete_eq].
Qed.

End TaskRuns.

Lemma startQuiz_runs_the_quiz_witness :
  let w := aliceAloneWorld [] in
  let s := aliceAlone [] in
  ∃ s',
    startQuiz exampleIDs firstListed 3 0%nat w
    = Done tt {| manager := removed (SessionID s) (moved (SessionID s) 0%nat (manager w));
                 store := <[0%nat := s']> (store w);
                 started := started w;
                 idsGenerated := idsGenerated w |}
    ∧ calls (publishChannel s')
      = calls (publishChannel s) ++ [noticeCall None]
        ++ (questionCall None <$> getQuestions s)
        ++ [boardCall (players s') None; endCall None]
    ∧ currentQuestion s' = len (length (getQuestions s))
    ∧ cancelled s' = true
    ∧ waitingRooms (removed (SessionID s) (moved (SessionID s) 0%nat (manager w)))
        !! SessionID s = None
    ∧ inProgress (removed (SessionID s) (moved (SessionID s) 0%nat (manager w)))
        !! SessionID s = None.
Proof.
  intros w s.
  apply (startQuiz_runs_the_quiz exampleIDs firstListed 3 0%nat 0%nat w s).
  - reflexivity.
  - reflexivity.
  - reflexivity.
  - vm_compute. discriminate.
  - simpl. lia.
  - intros i. by destruct i.
Defined.

Lemma startQuiz_stops_at_failed_question_witness :
  let w := aliceAloneWorld [None; None; Some "connection lost"] in
  let s := aliceAlone [None; None; Some "connection lost"] in
  ∃ s',
    startQuiz exampleIDs firstListed 3 0%nat w
    = Done tt {| manager := removed (SessionID s) (moved (SessionID s) 0%nat (manager w));
                 store := <[0%nat := s']> (store w);
                 started := started w;
                 idsGenerated := idsGenerated w |}
    ∧ calls (publishChannel s')
      = calls (publishChannel s) ++ [noticeCall None]
        ++ (questionCall None <$> [exampleQuestion])
        ++ [questionCall (Some "connection lost") secondQuestion;
            endCall (answerOf (script (publishChannel s)) 3)]
    ∧ currentQuestion s' = len (length [exampleQuestion])
    ∧ cancelled s' = true.
Proof.
  intros w s.
  apply (startQuiz_stops_at_failed_question exampleIDs firstListed 3 0%nat 0%nat w s
           [exampleQuestion] secondQuestion [] "connection lost").
  - reflexivity.
  - reflexivity.
  - reflexivity.
  - vm_compute. discriminate.
  - reflexivity.
  - simpl. lia.
  - intros i Hi. destruct i as [|[|i]]; [reflexivity|reflexivity|simpl in Hi; lia].
  - reflexivity.
Defined.

Lemma startQuiz_always_ends_the_session_witness :
  let w := aliceAloneWorld [Some "connection lost"] in
  let s := aliceAlone [Some "connection lost"] in
  ∃ w' s',
    startQuiz exampleIDs firstListed 3 0%nat w = Done tt w'
    ∧ store w' !! 0%nat = Some s'
    ∧ cancelled s' = true
    ∧ waitingRooms (manager w') !! SessionID s = None
    ∧ inProgress (manager w') !! SessionID s = None.
Proof.
  intros w s.
  apply (startQuiz_always_ends_the_session exampleIDs firstListed 3 0%nat w s).
  - reflexivity.
  - vm_compute. discriminate.
  - vm_compute. discriminate.
  - simpl. lia.
Defined.

(** ** The commands of the registry *)

Lemma AddPlayer_Done (l : loc) (p : Player) (w : World) (s : Session) :
  store w !! l = Some s →
  AddPlayer l p w = Done (Session_AddPlayer p s).1.1 (seated l p s w).
Proof.
  intros Hs. unfold AddPlayer, bind, onSession, seated. rewrite Hs.
  destruct (Session_AddPlayer p s) as [[err s'] start]. simpl.
  by destruct start.
Qed.

Lemma AddPlayer_seats (p : Player) (s : Session) :
  (Session_AddPlayer p s).1.1 = None →
  players (Session_AddPlayer p s).1.2 !! ID p = Some (joined p).
Proof.
  unfold Session_AddPlayer.
  destruct (len (size (players s)) <? maxPlayersPerSession (config s)); [|done].
  intros _. fold (joined p).
  destruct (_ =? _); simpl; apply lookup_insert_eq.
Qed.

Lemma AddPlayer_refused (p : Player) (s : Session) :
  full s → Session_AddPlayer p s = (Some SessionFull, s, false).
Proof.
  unfold full, Session_AddPlayer. intros Hfull.
  by destruct (Z.ltb_spec (len (size (players s))) (maxPlayersPerSession (config s)));
    [lia|].
Qed.

Section ManagerRuns.

Variable generateUniqueID : nat → string.
Variable choose : gmap string loc → nat.

Local Abbreviation handle := (handleCommand generateUniqueID choose).

Lemma rangeFirst_Some (m : gmap string loc) :
  m ≠ ∅ → ∃ id l, rangeFirst choose m = Some (id, l) ∧ m !! id = Some l.
Proof.
  intros Hne. unfold rangeFirst.
  assert (Hlen : length (map_to_list m) ≠ 0%nat).
  { rewrite length_map_to_list. by intros ?%map_size_empty_inv. }
  destruct (lookup_lt_is_Some_2 (map_to_list m)
              (choose m `mod` length (map_to_list m))%nat) as [[id l] Hx].
  { by apply Nat.mod_upper_bound. }
  exists id, l. split; [done|].
  apply list_elem_of_lookup_2 in Hx. by apply elem_of_map_to_list in Hx.
Qed.

Lemma Join_waiting (w : World) (p : Player) (id : string) (l : loc) (s : Session) :
  rangeFirst choose (waitingRooms (manager w)) = Some (id, l) →
  waitingRooms (manager w) !! id = Some l →
  store w !! l = Some s →
  handle (joinCommand p) w
  = Done {| Error := (Session_AddPlayer p s).1.1; Response_SessionId := id |}
         (seated l p s w).
Proof.
  intros Hfirst Hid Hs. unfold handleCommand. simpl. unfold bind at 1, getManager.
  assert (Hpos : (0 < size (waitingRooms (manager w)))%nat).
  { assert (size (waitingRooms (manager w)) ≠ 0%nat); [|lia].
    apply map_size_ne_0_lookup. eauto. }
  destruct (Z.gtb_spec (len (size (waitingRooms (manager w)))) 0);
    [|unfold len in *; lia].
  rewrite Hfirst. erewrite bind_Done; [|by apply AddPlayer_Done]. done.
Qed.

Lemma Join_creating (w : World) (p : Player) :
  waitingRooms (manager w) = ∅ →
  activeCount (manager w) < maxSessions (manager w) →
  handle (joinCommand p) w
  = Done {| Error := (Session_AddPlayer p (freshSession generateUniqueID w)).1.1;
            Response_SessionId := generateUniqueID (idsGenerated w) |}
         (seated (length (store w)) p (freshSession generateUniqueID w)
            (withNewSession generateUniqueID w)).
Proof.
  intros Hempty Hroom. unfold handleCommand. simpl. unfold bind at 1, getManager.
  rewrite Hempty, map_size_empty. change (len 0 >? 0) with false. cbv iota.
  erewrite bind_Done; [|by apply createSession_room]. cbn [fst snd].
  unfold bind at 1, getManager. cbn [manager withNewSession waitingRooms
    set_activeCount set_waitingRooms].
  rewrite lookup_insert_eq.
  erewrite bind_Done; [|apply AddPlayer_Done].
  - done.
  - cbn [store withNewSession]. by apply list_lookup_middle.
Qed.

Lemma Join_at_capacity (w : World) (p : Player) :
  waitingRooms (manager w) = ∅ →
  maxSessions (manager w) ≤ activeCount (manager w) →
  handle (joinCommand p) w = Done (failed CapacityExceeded) w.
Proof.
  intros Hempty Hfull. unfold handleCommand. simpl. unfold bind at 1, getManager.
  rewrite Hempty, map_size_empty. change (len 0 >? 0) with false. cbv iota.
  erewrite bind_Done; [|by apply createSession_full]. done.
Qed.

(** X11. A join that is answered without error names a waiting session
    that holds the player under the player's id, with score 0 and a
    clear answered-flag. *)
Theorem Join_seats_the_player (w w' : World) (p : Player) (r : SessionManagerResponse) :
  sessions_allocated w →
  handle (joinCommand p) w = Done r w' →
  Error r = None →
  ∃ l s', waitingRooms (manager w') !! Response_SessionId r = Some l
          ∧ store w' !! l = Some s'
          ∧ players s' !! ID p = Some (joined p).
Proof.
  intros Halloc Hrun Herr.
  destruct (decide (waitingRooms (manager w) = ∅)) as [Hempty|Hne].
  - destruct (Z.lt_ge_cases (activeCount (manager w)) (maxSessions (manager w)))
      as [Hroom|Hfull].
    + rewrite (Join_creating w p Hempty Hroom) in Hrun.
      injection Hrun as <- <-. simpl in Herr.
      exists (length (store w)), (Session_AddPlayer p (freshSession generateUniqueID w)).1.2.
      split; [apply lookup_insert_eq|]. split; [|by apply AddPlayer_seats].
      simpl. apply list_lookup_insert_eq. rewrite length_app. simpl. lia.
    + rewrite (Join_at_capacity w p Hempty Hfull) in Hrun.
      injection Hrun as <- <-. done.
  - destruct (rangeFirst_Some _ Hne) as (id & l & Hfirst & Hid).
    destruct (Halloc id l (or_introl Hid)) as [s Hs].
    rewrite (Join_waiting w p id l s Hfirst Hid Hs) in Hrun.
    injection Hrun as <- <-. simpl in Herr.
    exists l, (Session_AddPlayer p s).1.2.
    split; [done|]. split; [|by apply AddPlayer_seats].
    simpl. apply list_lookup_insert_eq. by eapply lookup_lt_Some.
Qed.

(** X12. While a waiting session is there and every waiting session is
    full, a join is turned away with [SessionFull]: no session is
    created, also when the server has room for one, and the world is as
    it was. *)
Theorem Join_turned_away_while_full (w : World) (p : Player) :
  waitingRooms (manager w) ≠ ∅ →
  (∀ id l, waitingRooms (manager w) !! id = Some l →
           ∃ s, store w !! l = Some s ∧ full s) →
  ∃ id, handle (joinCommand p) w
        = Done {| Error := Some SessionFull; Response_SessionId := id |} w
        ∧ is_Some (waitingRooms (manager w) !! id).
Proof.
  intros Hne Hfull.
  destruct (rangeFirst_Some _ Hne) as (id & l & Hfirst & Hid).
  destruct (Hfull id l Hid) as (s & Hs & Hs_full).
  exists id. split; [|eauto].
  rewrite (Join_waiting w p id l s Hfirst Hid Hs).
  unfold seated. rewrite (AddPlayer_refused p s Hs_full). simpl.
  rewrite list_insert_id by done. by destruct w.
Qed.

(** X13. A server whose sessions take no player: the first join creates
    a session, counts it and is answered with [SessionFull] and the id
    of the new session; the session stays waiting and empty, no quiz is
    started, and every later join is answered in the same way without a
    change of the world. *)
Theorem Join_without_seats (w : World) (p p' : Player) :
  mgr_maxPlayersPerSession (manager w) ≤ 0 →
  waitingRooms (manager w) = ∅ →
  activeCount (manager w) < maxSessions (manager w) →
  let id := generateUniqueID (idsGenerated w) in
  let w' := withNewSession generateUniqueID w in
  handle (joinCommand p) w
  = Done {| Error := Some SessionFull; Response_SessionId := id |} w'
  ∧ waitingRooms (manager w') = {[id := length (store w)]}
  ∧ store w' !! length (store w) = Some (freshSession generateUniqueID w)
  ∧ players (freshSession generateUniqueID w) = ∅
  ∧ started w' = started w
  ∧ handle (joinCommand p') w'
    = Done {| Error := Some SessionFull; Response_SessionId := id |} w'.
Proof.
  intros Hseats Hempty Hroom id w'.
  assert (Hfull : full (freshSession generateUniqueID w)).
  { unfold full, freshSession, NewSession. simpl. rewrite map_size_empty.
    unfold len. simpl. lia. }
  assert (Hw' : waitingRooms (manager w') = {[id := length (store w)]}).
  { unfold w', withNewSession. simpl. by rewrite Hempty, insert_empty. }
  assert (Hs' : store w' !! length (store w) = Some (freshSession generateUniqueID w)).
  { unfold w', withNewSession. simpl. by apply list_lookup_middle. }
  assert (Hseated : ∀ q, seated (length (store w)) q (freshSession generateUniqueID w) w' = w').
  { intros q. unfold seated. rewrite (AddPlayer_refused q _ Hfull). simpl.
    rewrite list_insert_id by done. reflexivity. }
  split; [|split; [done|split; [done|split; [done|split; [done|]]]]].
  - rewrite (Join_creating w p Hempty Hroom).
    rewrite (AddPlayer_refused p _ Hfull). simpl. f_equal. apply Hseated.
  - rewrite (Join_waiting w' p' id (length (store w)) (freshSession generateUniqueID w)).
    + rewrite (AddPlayer_refused p' _ Hfull). simpl. f_equal. apply Hseated.
    + rewrite Hw'. apply rangeFirst_singleton.
    + rewrite Hw'. apply lookup_singleton_eq.
    + done.
Qed.

Lemma Submit_routed (w : World) (id : string) (p : Player) (a : Z) (l : loc)
    (s s' : Session) (e : error) :
  inProgress (manager w) !! id = Some l →
  store w !! l = Some s →
  Session_SubmitAnswer p a s = Returns (e, s') →
  handle (submitCommand id p a) w
  = Done {| Error := e; Response_SessionId := "" |}
         (set_store (<[l := s']> (store w)) w).
Proof.
  intros Hin Hs Hsub. unfold handleCommand. simpl. unfold bind at 1, getManager.
  rewrite Hin. erewrite bind_Done; [|by eapply onSession_Done]. done.
Qed.

Lemma End_Done (w : World) (id : string) :
  handle (sessionCommand EndSession id) w
  = Done (succeeded "") (set_manager (removed id (manager w)) w).
Proof. reflexivity. Qed.

(** X14. Answers for a session are taken only while it is in progress.
    For a waiting session: an answer is refused with [SessionNotFound];
    after the move to in progress the same answer reaches
    [Session.SubmitAnswer] of that session and its result is the
    response; after the removal it is refused again. *)
Theorem answers_only_while_in_progress (w : World) (id : string) (l : loc)
    (s s' : Session) (p : Player) (a : Z) (e : error) :
  waitingRooms (manager w) !! id = Some l →
  inProgress (manager w) !! id = None →
  store w !! l = Some s →
  Session_SubmitAnswer p a s = Returns (e, s') →
  let w1 := set_manager (moved id l (manager w)) w in
  let w2 := set_manager (removed id (moved id l (manager w))) w in
  handle (submitCommand id p a) w = Done (failed SessionNotFound) w
  ∧ handle (sessionCommand MoveSessionToInProgress id) w = Done (succeeded "") w1
  ∧ handle (submitCommand id p a) w1
    = Done {| Error := e; Response_SessionId := "" |}
           (set_store (<[l := s']> (store w)) w1)
  ∧ handle (sessionCommand EndSession id) w1 = Done (succeeded "") w2
  ∧ handle (submitCommand id p a) w2 = Done (failed SessionNotFound) w2.
Proof.
  intros Hwait Hnot Hs Hsub w1 w2.
  split; [|split; [|split; [|split]]].
  - unfold handleCommand, bind, getManager. simpl. by rewrite Hnot.
  - by apply Move_accepted.
  - apply (Submit_routed w1 id p a l s s' e); [|done..].
    unfold w1. simpl. apply lookup_insert_eq.
  - apply End_Done.
  - unfold handleCommand, bind, getManager. simpl. by rewrite lookup_delete_eq.
Qed.

(** X15. A [SubmitAnswer] command changes no session but the one in
    progress under its id, and nothing of the registry; when it is
    answered with an error the world is as it was. *)
Theorem SubmitAnswer_reaches_only_its_session (w w' : World) (id : string)
    (p : Player) (a : Z) (r : SessionManagerResponse) :
  handle (submitCommand id p a) w = Done r w' →
  manager w' = manager w
  ∧ started w' = started w
  ∧ idsGenerated w' = idsGenerated w
  ∧ length (store w') = length (store w)
  ∧ (∀ l, inProgress (manager w) !! id ≠ Some l → store w' !! l = store w !! l)
  ∧ (Error r ≠ None → w' = w).
Proof.
  unfold handleCommand. simpl. unfold bind at 1, getManager.
  destruct (inProgress (manager w) !! id) as [l|] eqn:Hin.
  - unfold bind, onSession.
    destruct (store w !! l) as [s|] eqn:Hs; [|done].
    destruct (Session_SubmitAnswer p a s) as [[e s']|] eqn:Hsub; [|done].
    intros [= <- <-]. simpl.
    split; [done|]. split; [done|]. split; [done|].
    split; [by rewrite length_insert|]. split.
    + intros l' Hne. apply list_lookup_insert_ne. congruence.
    + intros He. 
      assert (s' = s) as ->.
      { unfold Session_SubmitAnswer in Hsub.
        destruct (getPlayers s !! ID p) as [p0|]; [|by injection Hsub].
        destruct (hasVoted p0); [by injection Hsub|].
        destruct (getCurrentQuestion s); [|done].
        injection Hsub as <- _. done. }
      rewrite list_insert_id by done. by destruct w.
  - intros [= <- <-]. done.
Qed.

(** X16. The life of a session in the registry: a join on a registry
    without waiting session creates and counts one; the move to in
    progress and the removal that [startQuiz] asks for give the registry
    back as it was before the join. *)
Theorem session_life_cycle (w : World) (p : Player) :
  waitingRooms (manager w) = ∅ →
  inProgress (manager w) !! generateUniqueID (idsGenerated w) = None →
  int_min < activeCount (manager w) + 1 →
  activeCount (manager w) < maxSessions (manager w) →
  maxSessions (manager w) ≤ int_max →
  let id := generateUniqueID (idsGenerated w) in
  ∃ r w1 w2 w3,
    handle (joinCommand p) w = Done r w1
    ∧ Response_SessionId r = id
    ∧ activeCount (manager w1) = activeCount (manager w) + 1
    ∧ handle (sessionCommand MoveSessionToInProgress id) w1 = Done (succeeded "") w2
    ∧ inProgress (manager w2) !! id = Some (length (store w))
    ∧ handle (sessionCommand EndSession id) w2 = Done (succeeded "") w3
    ∧ manager w3 = manager w.
Proof.
  intros Hempty Hfresh Hmin Hroom Hmax id.
  assert (Hinc : int_inc (activeCount (manager w)) = activeCount (manager w) + 1).
  { apply int_inc_no_overflow. unfold int_min in *. lia. }
  assert (Hdec : int_dec (activeCount (manager w) + 1) = activeCount (manager w)).
  { rewrite int_dec_no_overflow; lia. }
  eexists _, _, _, _. split; [by apply Join_creating|].
  split; [done|]. split; [exact Hinc|]. split.
  { apply Move_accepted. simpl. apply lookup_insert_eq. }
  split; [simpl; apply lookup_insert_eq|]. split; [apply End_Done|].
  simpl. unfold removed, moved, set_inProgress, set_activeCount, set_waitingRooms.
  simpl. rewrite Hinc, Hdec, Hempty, insert_empty, delete_singleton_eq.
  rewrite delete_insert_eq, delete_id by done.
  rewrite <-Hempty. by destruct (manager w).
Qed.

Lemma allocated_mono (w w' : World) :
  sessions_allocated w →
  (length (store w) ≤ length (store w'))%nat →
  (∀ id l,
     waitingRooms (manager w') !! id = Some l ∨ inProgress (manager w') !! id = Some l →
     (waitingRooms (manager w) !! id = Some l ∨ inProgress (manager w) !! id = Some l)
     ∨ (l < length (store w'))%nat) →
  sessions_allocated w'.
Proof.
  intros Halloc Hlen Hsub id l Hin. apply lookup_lt_is_Some.
  destruct (Hsub id l Hin) as [Hold|Hnew]; [|done].
  apply Halloc, lookup_lt_is_Some in Hold. lia.
Qed.

Lemma SubmitAnswer_returns (p : Player) (a : Z) (s : Session) :
  is_Some (getCurrentQuestion s) →
  ∃ e s', Session_SubmitAnswer p a s = Returns (e, s').
Proof.
  intros [q Hq]. unfold Session_SubmitAnswer. rewrite Hq.
  destruct (getPlayers s !! ID p) as [p0|]; [|eauto].
  destruct (hasVoted p0); eauto.
Qed.

(** X17. The registry answers every command: [handleCommand] returns,
    without a nil session and without a failed lookup, provided that an
    answer does not reach a session whose cursor is past its last
    question; and the sessions of the registry stay allocated. *)
Theorem handleCommand_returns (w : World) (cmd : SessionManagerCommand) :
  sessions_allocated w →
  (CommandType cmd = SubmitAnswer →
   ∀ l s, inProgress (manager w) !! SessionId cmd = Some l →
          store w !! l = Some s → is_Some (getCurrentQuestion s)) →
  ∃ r w', handle cmd w = Done r w' ∧ sessions_allocated w'.
Proof.
  intros Halloc Hq. destruct cmd as [[| | | |n] p a id]; simpl in Hq.
  - destruct (inProgress (manager w) !! id) as [l|] eqn:Hin.
    + destruct (Halloc id l (or_intror Hin)) as [s Hs].
      destruct (SubmitAnswer_returns p a s) as (e & s' & Hsub); [by eapply Hq|].
      eexists _, _. split; [by apply (Submit_routed w id p a l s s' e)|].
      apply (allocated_mono w); [done|simpl; by rewrite length_insert|].
      intros id' l' Hin'. by left.
    + exists (failed SessionNotFound), w. split; [|done].
      unfold handleCommand, bind, getManager. simpl. by rewrite Hin.
  - destruct (decide (waitingRooms (manager w) = ∅)) as [Hempty|Hne].
    + destruct (Z.lt_ge_cases (activeCount (manager w)) (maxSessions (manager w)))
        as [Hroom|Hfull].
      * eexists _, _. split; [by apply (Join_creating w p)|].
        apply (allocated_mono w); [done| |].
        { simpl. rewrite length_insert, length_app. lia. }
        simpl. rewrite length_insert, length_app. simpl.
        intros id' l' [Hin'|Hin']; [|by left; right].
        apply lookup_insert_Some in Hin' as [[_ <-]|[_ Hin']]; [right; lia|].
        by left; left.
      * eexists _, _. split; [by apply (Join_at_capacity w p)|done].
    + destruct (rangeFirst_Some _ Hne) as (id' & l & Hfirst & Hid).
      destruct (Halloc id' l (or_introl Hid)) as [s Hs].
      eexists _, _. split; [by apply (Join_waiting w p id' l s)|].
      apply (allocated_mono w); [done|simpl; by rewrite length_insert|].
      intros id'' l' Hin'. by left.
  - destruct (waitingRooms (manager w) !! id) as [l|] eqn:Hw.
    + eexists _, _. split; [by apply (Move_accepted generateUniqueID choose w id l)|].
      apply (allocated_mono w); [done|done|].
      simpl. intros id' l' [Hin'|Hin'].
      * apply lookup_delete_Some in Hin' as [_ Hin']. by left; left.
      * apply lookup_insert_Some in Hin' as [[<- <-]|[_ Hin']]; [by left; left|].
        by left; right.
    + eexists _, _. split; [by apply (Move_refused generateUniqueID choose w id)|done].
  - eexists _, _. split; [apply (End_Done w id)|].
    apply (allocated_mono w); [done|done|].
    simpl. intros id' l' [Hin'|Hin']; [by left; left|].
    apply lookup_delete_Some in Hin' as [_ Hin']. by left; right.
  - exists (failed UnknownCommand), w. done.
Qed.

Lemma AddPlayer_registry (l : loc) (p : Player) (w w' : World) (e : error) :
  AddPlayer l p w = Done e w' →
  manager w' = manager w ∧ idsGenerated w' = idsGenerated w.
Proof.
  unfold AddPlayer, bind.
  destruct (onSession l _ w) as [[e' start] w1| |] eqn:Hon; [|done..].
  apply onSession_manager in Hon as (Hm & _ & Hi & _). simpl.
  destruct start; simpl; intros [= _ <-]; done.
Qed.

(** What a command does to the registry. *)
Lemma handleCommand_manager (w w' : World) (cmd : SessionManagerCommand)
    (r : SessionManagerResponse) :
  handle cmd w = Done r w' →
  (manager w' = manager w ∧ idsGenerated w' = idsGenerated w)
  ∨ (∃ l, CommandType cmd = MoveSessionToInProgress
          ∧ waitingRooms (manager w) !! SessionId cmd = Some l
          ∧ manager w' = moved (SessionId cmd) l (manager w)
          ∧ idsGenerated w' = idsGenerated w)
  ∨ (CommandType cmd = EndSession
     ∧ manager w' = removed (SessionId cmd) (manager w)
     ∧ idsGenerated w' = idsGenerated w)
  ∨ (CommandType cmd = JoinSession
     ∧ activeCount (manager w) < maxSessions (manager w)
     ∧ manager w' = manager (withNewSession generateUniqueID w)
     ∧ idsGenerated w' = S (idsGenerated w)).
Proof.
  destruct cmd as [[| | | |n] p a id].
  - intros H. left. unfold handleCommand in H. simpl in H.
    unfold bind at 1, getManager in H.
    destruct (inProgress (manager w) !! id) as [l|]; [|by injection H as _ <-].
    unfold bind in H. destruct (onSession l _ w) as [e w1| |] eqn:Hon; [|done..].
    apply onSession_manager in Hon as (Hm & _ & Hi & _). by injection H as _ <-.
  - unfold handleCommand. simpl. unfold bind at 1, getManager.
    destruct (Z.gtb_spec (len (size (waitingRooms (manager w)))) 0) as [Hsome|Hnone].
    + destruct (rangeFirst choose (waitingRooms (manager w))) as [[id' l]|];
        [|by unfold panic].
      unfold bind. destruct (AddPlayer l p w) as [e w1| |] eqn:Hadd; [|done..].
      apply AddPlayer_registry in Hadd. intros [= _ <-]. by left.
    + destruct (Z.lt_ge_cases (activeCount (manager w)) (maxSessions (manager w)))
        as [Hroom|Hfull].
      * rewrite (bind_Done _ _ _ _ _ (createSession_room generateUniqueID w Hroom)).
        cbn [fst snd]. unfold bind at 1, getManager.
        cbn [manager withNewSession waitingRooms set_activeCount set_waitingRooms].
        rewrite lookup_insert_eq. unfold bind.
        destruct (AddPlayer _ p _) as [e w1| |] eqn:Hadd; [|done..].
        apply AddPlayer_registry in Hadd as [Hm Hi]. intros [= _ <-].
        right; right; right. rewrite Hm, Hi. done.
      * rewrite (bind_Done _ _ _ _ _ (createSession_full generateUniqueID w Hfull)).
        simpl. intros [= _ <-]. by left.
  - destruct (waitingRooms (manager w) !! id) as [l|] eqn:Hw.
    + rewrite (Move_accepted generateUniqueID choose w id l Hw : handle
        {| CommandType := MoveSessionToInProgress; player := p; answer := a;
           SessionId := id |} w = _).
      intros [= _ <-]. right; left. exists l. done.
    + rewrite (Move_refused generateUniqueID choose w id Hw : handle
        {| CommandType := MoveSessionToInProgress; player := p; answer := a;
           SessionId := id |} w = _).
      intros [= _ <-]. by left.
  - intros [= _ <-]. right; right; left. done.
  - intros [= _ <-]. by left.
Qed.

Lemma handleCommand_sound (w w' : World) (cmd : SessionManagerCommand)
    (r : SessionManagerResponse) :
  Inj (=) (=) generateUniqueID →
  registry_sound generateUniqueID w →
  (CommandType cmd = EndSession →
   is_Some (inProgress (manager w) !! SessionId cmd)) →
  handle cmd w = Done r w' →
  registry_sound generateUniqueID w'.
Proof.
  intros Hinj (Hok & Hcap & Hids) Hend Hrun.
  assert (Hfresh : ∀ id, is_Some (waitingRooms (manager w) !! id)
                         ∨ is_Some (inProgress (manager w) !! id) →
                         id ≠ generateUniqueID (idsGenerated w)).
  { intros id Hin ->. destruct (Hids _ Hin) as (i & Hi & Heq).
    apply Hinj in Heq. lia. }
  assert (Hok' : registry_ok (manager w')).
  { eapply (handleCommand_keeps_invariant generateUniqueID choose w w' cmd r); try done.
    destruct (inProgress (manager w) !! generateUniqueID (idsGenerated w)) eqn:Hl;
      [|done].
    exfalso. eapply Hfresh; [|done]. right. eauto. }
  split; [done|].
  destruct Hok as ((Hdisj & Hcount) & Hmax & HmaxS).
  destruct (handleCommand_manager w w' cmd r Hrun)
    as [[Hm Hi]|[(l & _ & Hw & Hm & Hi)|[(Ht & Hm & Hi)|(_ & Hroom & Hm & Hi)]]].
  - split; [by rewrite Hm|]. intros id Hin. rewrite Hm in Hin. rewrite Hi.
    by apply Hids.
  - split; [by rewrite Hm|]. intros id Hin. rewrite Hm in Hin. rewrite Hi.
    apply Hids. simpl in Hin. destruct Hin as [[x Hin]|[x Hin]].
    + apply lookup_delete_Some in Hin as [_ Hin]. left. eauto.
    + apply lookup_insert_Some in Hin as [[<- _]|[_ Hin]]; [left|right]; eauto.
  - split.
    + rewrite Hm. simpl. rewrite int_dec_no_overflow; [lia|].
      unfold len, int_min in *. lia.
    + intros id Hin. rewrite Hm in Hin. rewrite Hi. apply Hids.
      simpl in Hin. destruct Hin as [Hin|[x Hin]]; [by left|].
      apply lookup_delete_Some in Hin as [_ Hin]. right. eauto.
  - split.
    + rewrite Hm. simpl. rewrite int_inc_no_overflow; [lia|].
      unfold len, int_min in *. lia.
    + intros id Hin. rewrite Hm in Hin. rewrite Hi. simpl in Hin.
      destruct Hin as [[x Hin]|Hin].
      * apply lookup_insert_Some in Hin as [[<- _]|[_ Hin]].
        -- exists (idsGenerated w). split; [lia|done].
        -- destruct (Hids id) as (i & Hlt & ->); [left; eauto|].
           exists i. split; [lia|done].
      * destruct (Hids id) as (i & Hlt & ->); [by right|].
        exists i. split; [lia|done].
Qed.

Lemma handleCommand_admissible (w : World) (cmd : SessionManagerCommand) :
  sessions_allocated w →
  admissible cmd w →
  ∃ r w', handle cmd w = Done r w' ∧ sessions_allocated w'.
Proof.
  intros Halloc [_ Hq]. destruct cmd as [[| | | |n] p a id]; simpl in Hq.
  - destruct (inProgress (manager w) !! id) as [l|] eqn:Hin.
    + destruct (Halloc id l (or_intror Hin)) as [s Hs].
      destruct (SubmitAnswer_returns p a s) as (e & s' & Hsub); [by eapply Hq|].
      eexists _, _. split; [by apply (Submit_routed w id p a l s s' e)|].
      apply (allocated_mono w); [done|simpl; by rewrite length_insert|].
      intros id' l' Hin'. by left.
    + exists (failed SessionNotFound), w. split; [|done].
      unfold handleCommand, bind, getManager. simpl. by rewrite Hin.
  - destruct (decide (waitingRooms (manager w) = ∅)) as [Hempty|Hne].
    + destruct (Z.lt_ge_cases (activeCount (manager w)) (maxSessions (manager w)))
        as [Hroom|Hfull].
      * eexists _, _. split; [by apply (Join_creating w p)|].
        apply (allocated_mono w); [done| |].
        { simpl. rewrite length_insert, length_app. lia. }
        simpl. rewrite length_insert, length_app. simpl.
        intros id' l' [Hin'|Hin']; [|by left; right].
        apply lookup_insert_Some in Hin' as [[_ <-]|[_ Hin']]; [right; lia|].
        by left; left.
      * eexists _, _. split; [by apply (Join_at_capacity w p)|done].
    + destruct (rangeFirst_Some _ Hne) as (id' & l & Hfirst & Hid).
      destruct (Halloc id' l (or_introl Hid)) as [s Hs].
      eexists _, _. split; [by apply (Join_waiting w p id' l s)|].
      apply (allocated_mono w); [done|simpl; by rewrite length_insert|].
      intros id'' l' Hin'. by left.
  - destruct (waitingRooms (manager w) !! id) as [l|] eqn:Hw.
    + eexists _, _. split; [by apply (Move_accepted generateUniqueID choose w id l)|].
      apply (allocated_mono w); [done|done|].
      simpl. intros id' l' [Hin'|Hin'].
      * apply lookup_delete_Some in Hin' as [_ Hin']. by left; left.
      * apply lookup_insert_Some in Hin' as [[<- <-]|[_ Hin']]; [by left; left|].
        by left; right.
    + eexists _, _. split; [by apply (Move_refused generateUniqueID choose w id)|done].
  - eexists _, _. split; [apply (End_Done w id)|].
    apply (allocated_mono w); [done|done|].
    simpl. intros id' l' [Hin'|Hin']; [by left; left|].
    apply lookup_delete_Some in Hin' as [_ Hin']. by left; right.
  - exists (failed UnknownCommand), w. done.
Qed.

(** X18. [RunSessionManager] answers every command and never holds more
    sessions than the server may have. From a registry within its
    invariants, over any sequence of commands that are admissible when
    they are handled, the loop returns with one response for each
    command; the partitions stay disjoint, [activeCount] is the number
    of their sessions and at most [maxSessions], and the sessions stay
    allocated. *)
Theorem RunSessionManager_within_capacity (cmds : list SessionManagerCommand)
    (w : World) :
  Inj (=) (=) generateUniqueID →
  registry_sound generateUniqueID w →
  sessions_allocated w →
  all_admissible generateUniqueID choose cmds w →
  ∃ rs w',
    runCommands generateUniqueID choose cmds w = Done rs w'
    ∧ registry_sound generateUniqueID w'
    ∧ sessions_allocated w'
    ∧ len (size (waitingRooms (manager w'))) + len (size (inProgress (manager w')))
      ≤ maxSessions (manager w')
    ∧ length rs = length cmds.
Proof.
  intros Hinj. revert w. induction cmds as [|cmd cmds IH]; intros w Hsound Halloc Hadm.
  - exists [], w. split; [done|]. split; [done|]. split; [done|]. split; [|done].
    destruct Hsound as (((_ & Hcount) & _) & Hcap & _). lia.
  - simpl in Hadm. destruct Hadm as [Hcmd Hrest].
    destruct (handleCommand_admissible w cmd Halloc Hcmd) as (r & w1 & Hrun & Halloc1).
    rewrite Hrun in Hrest.
    assert (Hsound1 : registry_sound generateUniqueID w1).
    { eapply (handleCommand_sound w w1 cmd r); [done|done|apply Hcmd|exact Hrun]. }
    destruct (IH w1 Hsound1 Halloc1 Hrest) as (rs & w' & Hruns & Hs & Ha & Hc & Hl).
    exists (r :: rs), w'. split.
    { simpl. erewrite bind_Done; [|exact Hrun].
      erewrite bind_Done; [|exact Hruns]. done. }
    split; [done|]. split; [done|]. split; [done|]. simpl. by rewrite Hl.
Qed.

End ManagerRuns.

Lemma Join_seats_the_player_witness :
  let w' := firstFilling exampleIDs 1 (exampleConnection []) [exampleQuestion] 1 [alice] in
  ∃ l s', waitingRooms (manager w') !! Response_SessionId (succeeded "s0") = Some l
          ∧ store w' !! l = Some s'
          ∧ players s' !! ID alice = Some (joined alice).
Proof.
  intros w'.
  apply (Join_seats_the_player exampleIDs firstListed (soloWorld []) w' alice
           (succeeded "s0")).
  - intros id l [H|H]; simpl in H; by rewrite lookup_empty in H.
  - vm_compute. reflexivity.
  - reflexivity.
Defined.

Lemma Join_turned_away_while_full_witness :
  ∃ id, handleCommand exampleIDs firstListed (joinCommand bob) (aliceAloneWorld [])
        = Done {| Error := Some SessionFull; Response_SessionId := id |}
               (aliceAloneWorld [])
        ∧ is_Some (waitingRooms (manager (aliceAloneWorld [])) !! id).
Proof.
  apply (Join_turned_away_while_full exampleIDs firstListed (aliceAloneWorld []) bob).
  - simpl. apply map_non_empty_singleton.
  - intros id l H. simpl in H. apply lookup_singleton_Some in H as [_ <-].
    eexists. split; [reflexivity|]. vm_compute. discriminate.
Defined.

Lemma Join_without_seats_witness :
  let id := exampleIDs (idsGenerated noSeatsWorld) in
  let w' := withNewSession exampleIDs noSeatsWorld in
  handleCommand exampleIDs firstListed (joinCommand alice) noSeatsWorld
  = Done {| Error := Some SessionFull; Response_SessionId := id |} w'
  ∧ waitingRooms (manager w') = {[id := length (store noSeatsWorld)]}
  ∧ store w' !! length (store noSeatsWorld) = Some (freshSession exampleIDs noSeatsWorld)
  ∧ players (freshSession exampleIDs noSeatsWorld) = ∅
  ∧ started w' = started noSeatsWorld
  ∧ handleCommand exampleIDs firstListed (joinCommand bob) w'
    = Done {| Error := Some SessionFull; Response_SessionId := id |} w'.
Proof.
  apply (Join_without_seats exampleIDs firstListed noSeatsWorld alice bob).
  - simpl. lia.
  - reflexivity.
  - simpl. lia.
Defined.

Lemma answers_only_while_in_progress_witness :
  let w := aliceAloneWorld [] in
  let s' := set_players {[ "a1" := answered exampleQuestion 1 alice ]} (aliceAlone []) in
  let w1 := set_manager (moved "s0" 0%nat (manager w)) w in
  let w2 := set_manager (removed "s0" (moved "s0" 0%nat (manager w))) w in
  handleCommand exampleIDs firstListed (submitCommand "s0" alice 1) w
  = Done (failed SessionNotFound) w
  ∧ handleCommand exampleIDs firstListed (sessionCommand MoveSessionToInProgress "s0") w
    = Done (succeeded "") w1
  ∧ handleCommand exampleIDs firstListed (submitCommand "s0" alice 1) w1
    = Done {| Error := None; Response_SessionId := "" |}
           (set_store (<[0%nat := s']> (store w)) w1)
  ∧ handleCommand exampleIDs firstListed (sessionCommand EndSession "s0") w1
    = Done (succeeded "") w2
  ∧ handleCommand exampleIDs firstListed (submitCommand "s0" alice 1) w2
    = Done (failed SessionNotFound) w2.
Proof.
  intros w s'.
  apply (answers_only_while_in_progress exampleIDs firstListed w "s0" 0%nat
           (aliceAlone []) s' alice 1 None).
  - reflexivity.
  - reflexivity.
  - reflexivity.
  - vm_compute. reflexivity.
Defined.

Lemma SubmitAnswer_reaches_only_its_session_witness :
  let w := aliceInProgress [] in
  ∃ r w',
    handleCommand exampleIDs firstListed (submitCommand "s0" alice 1) w = Done r w'
    ∧ manager w' = manager w
    ∧ started w' = started w
    ∧ idsGenerated w' = idsGenerated w
    ∧ length (store w') = length (store w)
    ∧ (∀ l, inProgress (manager w) !! "s0" ≠ Some l → store w' !! l = store w !! l)
    ∧ (Error r ≠ None → w' = w).
Proof.
  intros w. eexists _, _. split; [vm_compute; reflexivity|].
  apply (SubmitAnswer_reaches_only_its_session exampleIDs firstListed w _ "s0" alice 1 _).
  vm_compute. reflexivity.
Defined.

Lemma session_life_cycle_witness :
  let w := soloWorld [] in
  let id := exampleIDs (idsGenerated w) in
  ∃ r w1 w2 w3,
    handleCommand exampleIDs firstListed (joinCommand alice) w = Done r w1
    ∧ Response_SessionId r = id
    ∧ activeCount (manager w1) = activeCount (manager w) + 1
    ∧ handleCommand exampleIDs firstListed (sessionCommand MoveSessionToInProgress id) w1
      = Done (succeeded "") w2
    ∧ inProgress (manager w2) !! id = Some (length (store w))
    ∧ handleCommand exampleIDs firstListed (sessionCommand EndSession id) w2
      = Done (succeeded "") w3
    ∧ manager w3 = manager w.
Proof.
  intros w.
  apply (session_life_cycle exampleIDs firstListed w alice).
  - reflexivity.
  - reflexivity.
  - unfold int_min. simpl. lia.
  - simpl. lia.
  - unfold int_max. simpl. lia.
Defined.

Lemma handleCommand_returns_witness :
  ∃ r w', handleCommand exampleIDs firstListed (joinCommand bob) (aliceAloneWorld [])
          = Done r w'
          ∧ sessions_allocated w'.
Proof.
  apply (handleCommand_returns exampleIDs firstListed (aliceAloneWorld [])
           (joinCommand bob)).
  - intros id l [H|H]; simpl in H.
    + apply lookup_singleton_Some in H as [_ <-]. eexists. reflexivity.
    + by rewrite lookup_empty in H.
  - discriminate.
Defined.

Lemma RunSessionManager_within_capacity_witness :
  ∃ rs w',
    runCommands exampleIDs firstListed exampleCommands (soloWorld []) = Done rs w'
    ∧ registry_sound exampleIDs w'
    ∧ sessions_allocated w'
    ∧ len (size (waitingRooms (manager w'))) + len (size (inProgress (manager w')))
      ≤ maxSessions (manager w')
    ∧ length rs = length exampleCommands.
Proof.
  apply (RunSessionManager_within_capacity exampleIDs firstListed exampleCommands
           (soloWorld [])).
  - intros i j H. unfold exampleIDs in H.
    apply (inj (String.append "s")) in H. by apply (inj pretty) in H.
  - split; [split; [split|]|split].
    + apply map_disjoint_empty_l.
    + reflexivity.
    + unfold int_max. simpl. lia.
    + simpl. lia.
    + intros id [[x H]|[x H]]; simpl in H; by rewrite lookup_empty in H.
  - intros id l [H|H]; simpl in H; by rewrite lookup_empty in H.
  - unfold exampleCommands.
    repeat (cbn [all_admissible];
            split;
            [split;
             [try discriminate; intros _; vm_compute; eexists; reflexivity
             |try discriminate;
              intros _ l s Hl Hs; vm_compute in Hl; injection Hl as <-;
              vm_compute in Hs; injection Hs as <-; vm_compute; eexists; reflexivity]
            |match goal with
             | |- context [handleCommand ?g ?c ?cmd ?w] =>
                 let v := eval vm_compute in (handleCommand g c cmd w) in
                 change (handleCommand g c cmd w) with v; cbv beta iota
             end]).
    exact I.
Defined.

(** ** The handlers and the client *)

Lemma AddPlayer_named (p : Player) (s : Session) :
  named p →
  (∀ k q, players s !! k = Some q → named q) →
  ∀ k q, players (Session_AddPlayer p s).1.2 !! k = Some q → named q.
Proof.
  intros Hp Hs k q. unfold Session_AddPlayer.
  destruct (len (size (players s)) <? maxPlayersPerSession (config s)); [|apply Hs].
  assert (Hins : players (set_players
            (<[ID p := {| Name := Name p; ID := ID p; Score := 0; hasVoted := false |}]>
               (players s)) s) !! k = Some q → named q).
  { simpl. intros [[_ <-]|[_ Hq]]%lookup_insert_Some; [done|by eapply Hs]. }
  by destruct (_ =? _).
Qed.

Lemma SubmitAnswer_named (p : Player) (a : Z) (s s' : Session) (e : error) :
  Session_SubmitAnswer p a s = Returns (e, s') →
  (∀ k q, players s !! k = Some q → named q) →
  ∀ k q, players s' !! k = Some q → named q.
Proof.
  unfold Session_SubmitAnswer, getPlayers. intros H Hs.
  destruct (players s !! ID p) as [p0|] eqn:Hp0; [|by injection H as _ <-].
  destruct (hasVoted p0); [by injection H as _ <-|].
  destruct (getCurrentQuestion s) as [q0|]; [|done].
  injection H as _ <-. intros k q. unfold setPlayer. simpl.
  pose proof (Hs _ _ Hp0) as Hn.
  intros [[_ <-]|[_ Hq]]%lookup_insert_Some; [|by eapply Hs].
  by destruct (a =? CorrectAnswer q0).
Qed.

Lemma named_written (w : World) (l : loc) (s' : Session) :
  players_named w →
  (∀ k q, players s' !! k = Some q → named q) →
  players_named (set_store (<[l := s']> (store w)) w).
Proof.
  intros Hw Hs' l' s k p. simpl. intros Hl Hp.
  destruct (decide (l = l')) as [<-|Hne].
  - destruct (decide (l < length (store w))%nat) as [Hlt|Hge].
    + rewrite list_lookup_insert_eq in Hl by done. injection Hl as <-. by eapply Hs'.
    + rewrite list_insert_ge in Hl by lia. by eapply Hw.
  - rewrite list_lookup_insert_ne in Hl by done. by eapply Hw.
Qed.

Section HandlerRuns.

Variable generateUniqueID : nat → string.
Variable choose : gmap string loc → nat.
Variable Atoi : string → Z * error.

Local Abbreviation handle := (handleCommand generateUniqueID choose).
Local Abbreviation connect := (ConnectToSessionHandler generateUniqueID choose).
Local Abbreviation submit := (SubmitAnswerHandler generateUniqueID choose).
Local Abbreviation clientSubmit := (Client_SubmitAnswer generateUniqueID choose Atoi).

Lemma Join_keeps_named (w w' : World) (p : Player) (r : SessionManagerResponse) :
  named p →
  players_named w →
  handle (joinCommand p) w = Done r w' →
  players_named w'.
Proof.
  intros Hp Hw Hrun.
  destruct (decide (waitingRooms (manager w) = ∅)) as [Hempty|Hne].
  - destruct (Z.lt_ge_cases (activeCount (manager w)) (maxSessions (manager w)))
      as [Hroom|Hfull].
    + rewrite (Join_creating generateUniqueID choose w p Hempty Hroom) in Hrun.
      injection Hrun as _ <-.
      intros l s k q. simpl. intros Hl Hq.
      destruct (decide (l = length (store w))) as [->|Hne].
      * rewrite list_lookup_insert_eq in Hl by (rewrite length_app; simpl; lia).
        injection Hl as <-. revert k q Hq. apply AddPlayer_named; [done|].
        intros k q. simpl. by rewrite lookup_empty.
      * rewrite list_lookup_insert_ne in Hl by done.
        apply lookup_app_Some in Hl as [Hl|[Hge Hl]]; [by eapply Hw|].
        apply lookup_lt_Some in Hl. simpl in Hl. lia.
    + rewrite (Join_at_capacity generateUniqueID choose w p Hempty Hfull) in Hrun.
      by injection Hrun as _ <-.
  - destruct (rangeFirst_Some choose _ Hne) as (id & l & Hfirst & Hid).
    destruct (store w !! l) as [s|] eqn:Hs.
    + rewrite (Join_waiting generateUniqueID choose w p id l s Hfirst Hid Hs) in Hrun.
      injection Hrun as _ <-.
      apply (named_written w l); [done|].
      apply AddPlayer_named; [done|]. intros k q. apply (Hw l s k q Hs).
    + exfalso. revert Hrun. unfold handleCommand. simpl. unfold bind at 1, getManager.
      destruct (Z.gtb_spec (len (size (waitingRooms (manager w)))) 0) as [Hpos|Hzero].
      * rewrite Hfirst. unfold bind, AddPlayer, bind, onSession. by rewrite Hs.
      * intros _. apply Hne, map_size_empty_inv. unfold len in Hzero. lia.
Qed.

(** X19. [ConnectToSessionHandler] answers 400 exactly for a body that
    does not decode or lacks the name or the id, and then sends no
    command: the world is as it was. Whatever it answers, no player
    without name or id is seated. *)
Theorem ConnectToSessionHandler_validates (w w' : World) (r : option ConnectRequest)
    (resp : HttpResponse) :
  players_named w →
  connect r w = Done resp w' →
  players_named w'
  ∧ (StatusCode resp = StatusBadRequest ↔ malformed r)
  ∧ (malformed r → w' = w).
Proof.
  intros Hw. unfold ConnectToSessionHandler. destruct r as [request|].
  - destruct (String.eqb_spec (PlayerName request) "") as [Hn|Hn].
    { intros [= <- <-]. split; [done|]. split; [|done]. split; [by left|done]. }
    destruct (String.eqb_spec (PlayerId request) "") as [Hi|Hi].
    { intros [= <- <-]. split; [done|]. split; [|done]. split; [by right|done]. }
    cbn [orb]. unfold bind at 1.
    destruct (handle _ w) as [response w1| |] eqn:Hrun; [|done..].
    assert (Hw1 : players_named w1).
    { eapply (Join_keeps_named w w1 (connecting request)); [done|done|exact Hrun]. }
    destruct (Error response); intros [= <- <-].
    + split; [done|]. split; [split; [done|by intros [?|?]]|by intros [?|?]].
    + split; [done|]. split; [split; [done|by intros [?|?]]|by intros [?|?]].
  - intros [= <- <-]. done.
Qed.

Lemma Submit_refused (w w' : World) (id : string) (p : Player) (a : Z)
    (r : SessionManagerResponse) :
  handle (submitCommand id p a) w = Done r w' →
  Error r ≠ None → w' = w.
Proof.
  unfold handleCommand. simpl. unfold bind at 1, getManager.
  destruct (inProgress (manager w) !! id) as [l|]; [|by intros [= <- <-]].
  unfold bind, onSession.
  destruct (store w !! l) as [s|] eqn:Hs; [|done].
  destruct (Session_SubmitAnswer p a s) as [[e s']|] eqn:Hsub; [|done].
  intros [= <- <-] He. simpl in He.
  assert (s' = s) as ->.
  { unfold Session_SubmitAnswer in Hsub.
    destruct (getPlayers s !! ID p) as [p0|]; [|by injection Hsub].
    destruct (hasVoted p0); [by injection Hsub|].
    destruct (getCurrentQuestion s); [|done].
    injection Hsub as <- _. done. }
  rewrite list_insert_id by done. by destruct w.
Qed.

Lemma Submit_keeps_named (w w' : World) (id : string) (p : Player) (a : Z)
    (r : SessionManagerResponse) :
  players_named w →
  handle (submitCommand id p a) w = Done r w' →
  players_named w'.
Proof.
  intros Hw. unfold handleCommand. simpl. unfold bind at 1, getManager.
  destruct (inProgress (manager w) !! id) as [l|]; [|by intros [= _ <-]].
  unfold bind, onSession.
  destruct (store w !! l) as [s|] eqn:Hs; [|done].
  destruct (Session_SubmitAnswer p a s) as [[e s']|] eqn:Hsub; [|done].
  intros [= _ <-]. apply (named_written w l); [done|].
  eapply SubmitAnswer_named; [exact Hsub|]. intros k q. apply (Hw l s k q Hs).
Qed.

Lemma SubmitAnswerHandler_frame (w w' : World) (r : option AnswerRequest)
    (resp : HttpResponse) :
  submit r w = Done resp w' →
  StatusCode resp ≠ StatusOK → w' = w.
Proof.
  unfold SubmitAnswerHandler. destruct r as [request|]; [|by intros [= <- <-]].
  destruct (_ || _)%bool; [by intros [= <- <-]|].
  unfold bind at 1.
  destruct (handle _ w) as [response w1| |] eqn:Hrun; [|done..].
  destruct (Error response) as [e|] eqn:He; intros [= <- <-]; [|done].
  intros _.
  eapply (Submit_refused w w1 (Request_SessionId request)
            (answering (Request_PlayerId request)) (Request_Answer request));
    [exact Hrun|]. by rewrite He.
Qed.

(** X20. [SubmitAnswerHandler] answers 200, 400 or 500; an answer other
    than 200 leaves the world as it was; and in every case the players
    keep their names and ids. *)
Theorem SubmitAnswerHandler_refusal_changes_nothing (w w' : World)
    (r : option AnswerRequest) (resp : HttpResponse) :
  submit r w = Done resp w' →
  (StatusCode resp = StatusOK ∨ StatusCode resp = StatusBadRequest
   ∨ StatusCode resp = StatusInternalServerError)
  ∧ (StatusCode resp ≠ StatusOK → w' = w)
  ∧ (players_named w → players_named w').
Proof.
  intros Hrun. split; [|split; [by apply (SubmitAnswerHandler_frame w w' r resp)|]].
  - revert Hrun. unfold SubmitAnswerHandler.
    destruct r as [request|]; [|intros [= <- <-]; by right; left].
    destruct (_ || _)%bool; [intros [= <- <-]; by right; left|].
    unfold bind at 1. destruct (handle _ w) as [response w1| |]; [|done..].
    destruct (Error response); intros [= <- <-]; [by right; right|by left].
  - intros Hw. revert Hrun. unfold SubmitAnswerHandler.
    destruct r as [request|]; [|by intros [= _ <-]].
    destruct (_ || _)%bool; [by intros [= _ <-]|].
    unfold bind at 1. destruct (handle _ w) as [response w1| |] eqn:Hrun; [|done..].
    assert (Hw1 : players_named w1).
    { eapply (Submit_keeps_named w w1 (Request_SessionId request)
                (answering (Request_PlayerId request)) (Request_Answer request));
        [done|exact Hrun]. }
    by destruct (Error response); intros [= _ <-].
Qed.

(** X21. The number that [displayQuestionAndAnswers] prints beside an
    answer is the number to type for it: the client sends the number
    less one, which is the index of that answer, and the session scores
    it against [CorrectAnswer]; the player is marked as having
    answered. *)
Theorem displayed_number_is_the_answer (w : World) (id pid input a : string) (l : loc)
    (s : Session) (q : Question) (p0 : Player) (i : nat) :
  inProgress (manager w) !! id = Some l →
  store w !! l = Some s →
  getCurrentQuestion s = Some q →
  players s !! pid = Some p0 →
  ID p0 = pid →
  hasVoted p0 = false →
  int_min ≤ Score p0 < int_max →
  id ≠ "" → pid ≠ "" →
  PossibleAnswers q !! i = Some a →
  len (i + 1) ≤ int_max →
  Atoi input = (len (i + 1), None) →
  displayQuestionAndAnswers (questionMessage (withheld q)) !! (2 + i)%nat
  = Some (pretty (i + 1)%nat +:+ ": " +:+ a)
  ∧ clientSubmit None id pid input w
    = Done None (set_store (<[l := set_players (<[pid := answered q (len i) p0]> (players s)) s]>
                              (store w)) w).
Proof.
  intros Hin Hs Hq Hp Hid Hv Hscore Hid_ne Hpid_ne Ha Hmax Hatoi. split.
  - unfold displayQuestionAndAnswers, questionMessage, withheld. simpl.
    rewrite list_lookup_imap, Ha. done.
  - unfold Client_SubmitAnswer. rewrite Hatoi.
    destruct (Z.ltb_spec (len (i + 1)) 1) as [Hlt|_]; [unfold len in Hlt; lia|].
    rewrite int_dec_no_overflow by (unfold len, int_min in *; lia).
    replace (len (i + 1) - 1) with (len i) by (unfold len; lia).
    unfold SubmitAnswerHandler. cbn [Request_PlayerId Request_SessionId Request_Answer].
    rewrite (proj2 (String.eqb_neq pid "") Hpid_ne).
    rewrite (proj2 (String.eqb_neq id "") Hid_ne). cbn [orb].
    erewrite bind_Done.
    2:{ erewrite bind_Done.
        2:{ apply (Submit_routed generateUniqueID choose w id (answering pid) (len i) l s
                     (set_players (<[pid := answered q (len i) p0]> (players s)) s) None);
              [done|done|].
            unfold Session_SubmitAnswer, getPlayers. simpl. rewrite Hp, Hv, Hq.
            unfold setPlayer, answered, with_hasVoted, with_Score.
            destruct (len i =? CorrectAnswer q); simpl; rewrite ?Hid; [|done].
            by rewrite int_inc_no_overflow. }
        reflexivity. }
    reflexivity.
Qed.

(** X22. Whenever the client's [SubmitAnswer] returns an error, be it for
    the input, the transport or the answer of the server, the world of
    the server is as it was: no score and no answered-flag has changed. *)
Theorem Client_SubmitAnswer_error_changes_nothing (w w' : World) (sendError : error)
    (id pid input e : string) :
  clientSubmit sendError id pid input w = Done (Some e) w' →
  w' = w.
Proof.
  unfold Client_SubmitAnswer. destruct (Atoi input) as [n [e0|]].
  { by intros [= _ <-]. }
  destruct (n <? 1); [by intros [= _ <-]|].
  destruct sendError as [e1|]; [by intros [= _ <-]|].
  unfold bind at 1.
  destruct (submit _ w) as [resp w1| |] eqn:Hrun; [|done..].
  destruct resp as [e2 code|body]; [|done].
  destruct (Z.eqb_spec code StatusOK) as [Hok|Hne]; [done|].
  intros [= _ <-].
  eapply SubmitAnswerHandler_frame; [exact Hrun|exact Hne].
Qed.

End HandlerRuns.

Lemma ConnectToSessionHandler_validates_witness :
  let r := Some {| PlayerName := "Alice"; PlayerId := "a1" |} in
  let resp := JSONBody (SessionIdJSON "s0") in
  let w' := firstFilling exampleIDs 1 (exampleConnection []) [exampleQuestion] 1 [alice] in
  players_named w'
  ∧ (StatusCode resp = StatusBadRequest ↔ malformed r)
  ∧ (malformed r → w' = soloWorld []).
Proof.
  intros r resp w'.
  apply (ConnectToSessionHandler_validates exampleIDs firstListed (soloWorld []) w' r resp).
  - intros l s k p H. simpl in H. by rewrite lookup_nil in H.
  - vm_compute. reflexivity.
Defined.

Lemma SubmitAnswerHandler_refusal_changes_nothing_witness :
  let w := aliceInProgress [] in
  let r := Some {| Request_SessionId := "s0"; Request_PlayerId := "zz";
                   Request_Answer := 1 |} in
  let resp := http_Error PlayerNotFound StatusInternalServerError in
  (StatusCode resp = StatusOK ∨ StatusCode resp = StatusBadRequest
   ∨ StatusCode resp = StatusInternalServerError)
  ∧ (StatusCode resp ≠ StatusOK → w = w)
  ∧ (players_named w → players_named w).
Proof.
  intros w r resp.
  apply (SubmitAnswerHandler_refusal_changes_nothing exampleIDs firstListed w w r resp).
  vm_compute. reflexivity.
Defined.

Lemma displayed_number_is_the_answer_witness :
  let w := aliceInProgress [] in
  let s := aliceAlone [] in
  displayQuestionAndAnswers (questionMessage (withheld exampleQuestion)) !! (2 + 1)%nat
  = Some (pretty (1 + 1)%nat +:+ ": " +:+ "4")
  ∧ Client_SubmitAnswer exampleIDs firstListed digitAtoi None "s0" "a1" "2" w
    = Done None
        (set_store (<[0%nat := set_players
                                 (<["a1" := answered exampleQuestion (len 1) alice]>
                                    (players s)) s]> (store w)) w).
Proof.
  intros w s.
  apply (displayed_number_is_the_answer exampleIDs firstListed digitAtoi w "s0" "a1" "2"
           "4" 0%nat s exampleQuestion alice 1).
  - reflexivity.
  - reflexivity.
  - vm_compute. reflexivity.
  - vm_compute. reflexivity.
  - reflexivity.
  - reflexivity.
  - unfold int_min, int_max. simpl. lia.
  - discriminate.
  - discriminate.
  - reflexivity.
  - unfold len, int_max. simpl. lia.
  - vm_compute. reflexivity.
Defined.

Lemma Client_SubmitAnswer_error_changes_nothing_witness :
  soloWorld [] = soloWorld [].
Proof.
  apply (Client_SubmitAnswer_error_changes_nothing exampleIDs firstListed digitAtoi
           (soloWorld []) (soloWorld []) None "s9" "a1" "2"
           ("error submitting answer: " +:+ bodyOf SessionNotFound)).
  vm_compute. reflexivity.
Defined.

(** ** Answers around the publish of a question *)

(** X23. [SubmitAnswer] does not ask whether the question under the
    cursor was published. An answer that comes before [publishQuestion]
    is scored against that question; [publishQuestion] then clears the
    flag, and the same player can answer the same question again: the
    correct answer, given before and after the publish, counts twice. *)
Theorem answer_before_publish_counts_twice (s : Session) (player p : Player)
    (q : Question) :
  players_keyed (players s) →
  getCurrentQuestion s = Some q →
  players s !! ID player = Some p →
  hasVoted p = false →
  int_min ≤ Score p →
  Score p + 1 < int_max →
  ∃ s1 e s2 s3,
    Session_SubmitAnswer player (CorrectAnswer q) s = Returns (None, s1)
    ∧ publishQuestion s1 = Returns (e, s2)
    ∧ Session_SubmitAnswer player (CorrectAnswer q) s2 = Returns (None, s3)
    ∧ currentQuestion s3 = currentQuestion s
    ∧ players s3 !! ID player
      = Some {| Name := Name p; ID := ID p; Score := Score p + 2; hasVoted := true |}.
Proof.
  intros Hk Hq Hp Hv Hmin Hmax.
  pose proof (Hk _ _ Hp) as Hid.
  set (p1 := {| Name := Name p; ID := ID player; Score := Score p + 1;
                hasVoted := true |}).
  set (s1 := set_players (<[ID player := p1]> (players s)) s).
  assert (H1 : Session_SubmitAnswer player (CorrectAnswer q) s = Returns (None, s1)).
  { unfold Session_SubmitAnswer, getPlayers. rewrite Hp, Hv, Hq, Z.eqb_refl.
    unfold setPlayer, with_hasVoted, with_Score. simpl. rewrite Hid.
    by rewrite int_inc_no_overflow by lia. }
  assert (Hk1 : players_keyed (players s1)) by (by eapply SubmitAnswer_keyed).
  assert (Hq1 : getCurrentQuestion s1 = Some q) by exact Hq.
  destruct (resetVotes_frame s1) as (Hcfg & Hcur & Hch).
  destruct (Publish "new_question" (JSONQuestion (withheld q))
              (publishChannel (resetVotes s1))) as [e c] eqn:Hpub.
  set (s2 := set_channel c (resetVotes s1)).
  assert (H2 : publishQuestion s1 = Returns (e, s2)).
  { unfold publishQuestion. rewrite getCurrentQuestion_resetVotes, Hq1.
    fold (withheld q). by rewrite Hpub. }
  assert (Hp2 : players s2 !! ID player = Some (with_hasVoted false p1)).
  { change (players s2) with (players (resetVotes s1)).
    rewrite resetVotes_keyed by done. rewrite lookup_fmap.
    unfold s1. simpl. by rewrite lookup_insert_eq. }
  assert (Hq2 : getCurrentQuestion s2 = Some q).
  { rewrite <-Hq1. unfold getCurrentQuestion, getQuestions.
    change (config s2) with (config (resetVotes s1)).
    change (currentQuestion s2) with (currentQuestion (resetVotes s1)).
    by rewrite Hcfg, Hcur. }
  eexists s1, e, s2, _. split; [exact H1|]. split; [exact H2|]. split.
  { unfold Session_SubmitAnswer, getPlayers. rewrite Hp2. cbn [hasVoted with_hasVoted].
    rewrite Hq2, Z.eqb_refl. reflexivity. }
  split.
  - unfold setPlayer. cbn [currentQuestion set_players].
    change (currentQuestion s2) with (currentQuestion (resetVotes s1)).
    by rewrite Hcur.
  - unfold setPlayer, with_hasVoted, with_Score. simpl. rewrite Hid, lookup_insert_eq.
    rewrite int_inc_no_overflow by lia. do 2 f_equal. lia.
Qed.

Lemma answer_before_publish_counts_twice_witness :
  ∃ s1 e s2 s3,
    Session_SubmitAnswer alice (CorrectAnswer exampleQuestion) aliceSession
    = Returns (None, s1)
    ∧ publishQuestion s1 = Returns (e, s2)
    ∧ Session_SubmitAnswer alice (CorrectAnswer exampleQuestion) s2 = Returns (None, s3)
    ∧ currentQuestion s3 = currentQuestion aliceSession
    ∧ players s3 !! ID alice
      = Some {| Name := Name alice; ID := ID alice; Score := Score alice + 2;
                hasVoted := true |}.
Proof.
  apply (answer_before_publish_counts_twice aliceSession alice alice exampleQuestion).
  - intros k p. unfold aliceSession. simpl. intros [<- <-]%lookup_singleton_Some. done.
  - reflexivity.
  - reflexivity.
  - reflexivity.
  - unfold int_min. simpl. lia.
  - unfold int_max. simpl. lia.
Defined.

(** ** The new server *)

(** X24. A server made by [NewSessionManager] with a session limit in the
    range of [int] starts within the invariants that its commands keep:
    both partitions are empty and disjoint, [activeCount] is 0, the
    number of its sessions, and at most [maxSessions]; there is no
    session to allocate and no player without a name. *)
Theorem NewSessionManager_sound (g : nat → string) (maxSessions maxPlayers : Z)
    (conn : string → RealtimeChannel) (qs : list Question) :
  0 ≤ maxSessions ≤ int_max →
  let w := NewWorld (NewSessionManager maxSessions maxPlayers conn qs) in
  registry_sound g w
  ∧ sessions_allocated w
  ∧ players_named w
  ∧ waitingRooms (manager w) = ∅
  ∧ inProgress (manager w) = ∅
  ∧ mgr_questions (manager w) = qs
  ∧ mgr_maxPlayersPerSession (manager w) = maxPlayers.
Proof.
  intros Hmax w. split; [|split; [|split; [|done]]].
  - split; [split; [split|]|split].
    + apply map_disjoint_empty_l.
    + simpl. by rewrite map_size_empty.
    + simpl. unfold int_max in *. lia.
    + simpl. lia.
    + intros id [[x H]|[x H]]; simpl in H; by rewrite lookup_empty in H.
  - intros id l [H|H]; simpl in H; by rewrite lookup_empty in H.
  - intros l s k p H. simpl in H. by rewrite lookup_nil in H.
Qed.

Lemma NewSessionManager_sound_witness :
  registry_sound exampleIDs (soloWorld [])
  ∧ sessions_allocated (soloWorld [])
  ∧ players_named (soloWorld [])
  ∧ waitingRooms (manager (soloWorld [])) = ∅
  ∧ inProgress (manager (soloWorld [])) = ∅
  ∧ mgr_questions (manager (soloWorld [])) = [exampleQuestion]
  ∧ mgr_maxPlayersPerSession (manager (soloWorld [])) = 1.
Proof.
  apply (NewSessionManager_sound exampleIDs 1 1 (exampleConnection []) [exampleQuestion]).
  unfold int_max. lia.
Defined.
